(** * The tool installation step of the reaper

    A shallow embedding of [ToolInstallStep] (package [step]):
    [Run], [runIntallationScripts], [Environs] and [GetObjectPath],
    together with the pieces of Go's [strings], [path] and
    [path/filepath] packages they call.

    Strings are byte strings ([string] of the standard library).  The
    collaborators of the step (object store, HTTP download, file system,
    process spawning) are an oracle that answers every call from the
    history of calls; every call is recorded in a trace. *)

From Stdlib Require Import String Ascii List Bool Arith NArith ZArith Lia.
From Stdlib Require Import DecimalString.
Import ListNotations.
Local Open Scope string_scope.
Local Open Scope list_scope.

Set Implicit Arguments.

(* ===================================================================== *)
(** * Go's [strings] package *)
(* ===================================================================== *)

Module strings.

(** [strings.Split(s, sep)] for a one-byte separator, the only kind the
    step uses ("/" and "=").  The result is never empty: a string
    without the separator is returned as its only piece. *)
Fixpoint Split (s : string) (sep : ascii) : list string :=
  match s with
  | EmptyString => [EmptyString]
  | String c rest =>
      if Ascii.eqb c sep then EmptyString :: Split rest sep
      else match Split rest sep with
           | piece :: pieces => String c piece :: pieces
           | [] => [String c EmptyString]
           end
  end.

(** [strings.Join(elems, sep)]. *)
Fixpoint Join (elems : list string) (sep : string) : string :=
  match elems with
  | [] => EmptyString
  | [e] => e
  | e :: rest => e ++ sep ++ Join rest sep
  end.

(** Is byte [c] one of the bytes of [cutset]? *)
Fixpoint IndexByte (cutset : string) (c : ascii) : bool :=
  match cutset with
  | EmptyString => false
  | String d rest => Ascii.eqb c d || IndexByte rest c
  end.

(** [strings.TrimLeft(s, cutset)]: drop the leading bytes that belong to
    [cutset]. *)
Fixpoint TrimLeft (s cutset : string) : string :=
  match s with
  | EmptyString => EmptyString
  | String c rest => if IndexByte cutset c then TrimLeft rest cutset else s
  end.

(** The replacement budget of [strings.Replace]: [None] is "no limit"
    (a negative [n]). *)
Definition budget (n : Z) : option nat :=
  if (n <? 0)%Z then None else Some (Z.to_nat n).

Definition spend (b : option nat) : option nat :=
  match b with
  | None => None
  | Some k => Some (Nat.pred k)
  end.

Definition exhausted (b : option nat) : bool :=
  match b with
  | Some O => true
  | _ => false
  end.

(** The scan of [strings.Replace] for a non-empty [old]: occurrences are
    found left to right and do not overlap; [skip] counts the bytes of
    the occurrence just replaced that are still to be passed over. *)
Fixpoint replace_scan (old new : string) (b : option nat) (skip : nat)
         (s : string) : string :=
  match s with
  | EmptyString => EmptyString
  | String c rest =>
      match skip with
      | S k => replace_scan old new b k rest
      | O =>
          if negb (exhausted b) && String.prefix old s
          then new ++ replace_scan old new (spend b) (Nat.pred (String.length old)) rest
          else String c (replace_scan old new b 0 rest)
      end
  end.

(** The empty pattern matches before every byte and at the end of the
    string (Go matches at rune boundaries, which are the byte boundaries
    of ASCII text). *)
Fixpoint replace_gaps (new : string) (b : option nat) (s : string) : string :=
  if exhausted b then s
  else match s with
       | EmptyString => new
       | String c rest => new ++ String c (replace_gaps new (spend b) rest)
       end.

(** [strings.Replace(s, old, new, n)]. *)
Definition Replace (s old new : string) (n : Z) : string :=
  if String.eqb old new || (n =? 0)%Z then s
  else match old with
       | EmptyString => replace_gaps new (budget n) s
       | String _ _ => replace_scan old new (budget n) 0 s
       end.

(** [strings.ReplaceAll(s, old, new)] is [Replace(s, old, new, -1)]. *)
Definition ReplaceAll (s old new : string) : string :=
  Replace s old new (-1).

(** [strings.Contains(s, substr)]. *)
Fixpoint Contains (s substr : string) : bool :=
  String.prefix substr s ||
  match s with
  | EmptyString => false
  | String _ rest => Contains rest substr
  end.

(** [strings.Index(s, substr)] for a one-byte pattern: the offset of its
    first occurrence, [-1] when there is none. *)
Fixpoint Index (s : string) (c : ascii) : Z :=
  match s with
  | EmptyString => (-1)%Z
  | String d rest =>
      if Ascii.eqb d c then 0%Z
      else let i := Index rest c in
           if (i <? 0)%Z then (-1)%Z else (i + 1)%Z
  end.

(** The slices [s[:n]] and [s[n:]], for [n] within the string. *)
Fixpoint slice_to (s : string) (n : nat) : string :=
  match n, s with
  | S k, String c rest => String c (slice_to rest k)
  | _, _ => EmptyString
  end.

Fixpoint slice_from (s : string) (n : nat) : string :=
  match n, s with
  | S k, String _ rest => slice_from rest k
  | _, _ => s
  end.

(** The bytes of a string, last one first. *)
Fixpoint reverse (s : string) : string :=
  match s with
  | EmptyString => EmptyString
  | String c rest => reverse rest ++ String c EmptyString
  end.

(** The white space of [TrimSpace]'s fast path: tab, line feed, vertical
    tab, form feed, carriage return, space. *)
Definition asciiSpace (c : ascii) : bool :=
  let n := nat_of_ascii c in
  (Nat.leb 9 n && Nat.leb n 13) || Nat.eqb n 32.

Definition bytes (l : list nat) : string :=
  string_of_list_ascii (map ascii_of_nat l).

(** The UTF-8 encodings of the white space of [unicode.IsSpace] above
    U+007F: U+0085, U+00A0, U+1680, U+2000 to U+200A, U+2028, U+2029,
    U+202F, U+205F, U+3000. *)
Definition unicodeSpace : list string :=
  map bytes
      [[194; 133]; [194; 160]; [225; 154; 128];
       [226; 128; 128]; [226; 128; 129]; [226; 128; 130]; [226; 128; 131];
       [226; 128; 132]; [226; 128; 133]; [226; 128; 134]; [226; 128; 135];
       [226; 128; 136]; [226; 128; 137]; [226; 128; 138];
       [226; 128; 168]; [226; 128; 169]; [226; 128; 175];
       [226; 129; 159]; [227; 128; 128]].

(** The number of bytes of the white space a string starts with: [1] for
    a byte of [asciiSpace], the length of the encoding among [encodings]
    the string starts with, [0] when it starts with none. *)
Fixpoint encoded_space (encodings : list string) (s : string) : nat :=
  match encodings with
  | [] => 0
  | enc :: others =>
      if String.prefix enc s then String.length enc
      else encoded_space others s
  end.

Definition space_width (encodings : list string) (s : string) : nat :=
  match s with
  | EmptyString => 0
  | String c _ => if asciiSpace c then 1 else encoded_space encodings s
  end.

(** Drop white space from the front, one rune after the other; [skip]
    counts the bytes of the rune being dropped. *)
Fixpoint trim_scan (encodings : list string) (skip : nat) (s : string) : string :=
  match s with
  | EmptyString => EmptyString
  | String _ rest =>
      match skip with
      | S k => trim_scan encodings k rest
      | O =>
          match space_width encodings s with
          | O => s
          | S k => trim_scan encodings k rest
          end
      end
  end.

(** [strings.TrimLeftFunc(s, unicode.IsSpace)] and
    [strings.TrimRightFunc(s, unicode.IsSpace)]: a rune read from the end
    is white space when the string ends with its encoding. *)
Definition TrimLeftSpace (s : string) : string :=
  trim_scan unicodeSpace 0 s.

Definition TrimRightSpace (s : string) : string :=
  reverse (trim_scan (map reverse unicodeSpace) 0 (reverse s)).

(** [strings.TrimSpace(s)]. *)
Definition TrimSpace (s : string) : string :=
  TrimRightSpace (TrimLeftSpace s).

(** A run of white space of the fast path within one line: tabs,
    vertical tabs, form feeds, carriage returns and spaces. *)
Fixpoint blank (p : string) : bool :=
  match p with
  | EmptyString => true
  | String c rest =>
      asciiSpace c && negb (Ascii.eqb c (ascii_of_nat 10)) && blank rest
  end.

(** A byte below 0x80. *)
Definition ascii7 (c : ascii) : bool :=
  match c with
  | Ascii _ _ _ _ _ _ _ b7 => negb b7
  end.

(** [strings.Count(s, substr)] for a one-byte pattern. *)
Fixpoint Count (s : string) (c : ascii) : nat :=
  match s with
  | EmptyString => 0
  | String d rest => (if Ascii.eqb d c then 1 else 0) + Count rest c
  end.

End strings.

(* ===================================================================== *)
(** * Go's [path] and [path/filepath] packages (Unix) *)
(* ===================================================================== *)

Module filepath.

Definition Separator : ascii := "/"%char.

(** One element of the path scanned by [Clean]; [out] holds the elements
    written so far, last one first.  An empty element and "." are
    skipped; ".." removes the last real element, is kept at the front of
    a relative path and is dropped at the root. *)
Definition clean_elem (rooted : bool) (out : list string) (elem : string)
  : list string :=
  if String.eqb elem "" || String.eqb elem "." then out
  else if String.eqb elem ".." then
    match out with
    | last :: before =>
        if String.eqb last ".." then ".." :: out else before
    | [] => if rooted then [] else [".."]
    end
  else elem :: out.

(** [filepath.Clean(path)]: the shortest equivalent path. *)
Definition Clean (path : string) : string :=
  match path with
  | EmptyString => "."
  | String c _ =>
      let rooted := Ascii.eqb c Separator in
      let out := fold_left (clean_elem rooted) (strings.Split path Separator) [] in
      let body := strings.Join (rev out) "/" in
      if rooted then "/" ++ body
      else if String.eqb body "" then "." else body
  end.

(** [filepath.Join(elem...)]: the elements from the first non-empty one
    on are joined with the separator and the result is cleaned; with no
    non-empty element the result is empty. *)
Fixpoint Join (elem : list string) : string :=
  match elem with
  | [] => EmptyString
  | e :: rest =>
      if String.eqb e "" then Join rest
      else Clean (strings.Join elem "/")
  end.

End filepath.

Module path.
(** [path.Join] is [filepath.Join] on Unix. *)
Definition Join := filepath.Join.
End path.

Module fmt.
(** The [%d] verb at an unsigned number. *)
Definition d (n : N) : string := NilZero.string_of_uint (N.to_uint n).
End fmt.

(* ===================================================================== *)
(** * Data model *)
(* ===================================================================== *)

(** Modelled from the spec: the declaration of [step.Tool] is not among
    the sources; its fields are the ones the step reads ([Name],
    [Version], [Download], [Envs], [Scripts]). *)
Record Tool : Type := mkTool {
  Name : string;
  Version : string;
  Download : string;
  Envs : list string;
  Scripts : list string
}.

(** Modelled from the spec: the declaration of the storage configuration
    behind [spec.S3Storage] is not among the sources; its fields are the
    ones the step reads and the one it writes ([Subfolder]). *)
Record S3 : Type := mkS3 {
  Endpoint : string;
  Ak : string;
  Sk : string;
  Region : string;
  Bucket : string;
  Insecure : bool;
  Provider : string;
  Subfolder : string
}.

(** Modelled from the spec: [step.StepToolInstallSpec].  [Installs] is a
    slice of pointers: an entry is [None] for a nil pointer.  The spec is
    built by [yaml.Unmarshal] in [NewToolInstallStep], which allocates one
    [Tool] per entry, so the entries are distinct objects and a write
    through the pointer of entry [i] is an update of entry [i]. *)
Record StepToolInstallSpec : Type := mkSpec {
  Installs : list (option Tool);
  S3Storage : S3
}.

(** [type ToolInstallStep struct].  [spec] is a pointer: [None] is nil,
    which is what [NewToolInstallStep] leaves there when the spec it is
    given is nil. *)
Record ToolInstallStep : Type := mkStep {
  spec : option StepToolInstallSpec;
  envs : list string;
  secretEnvs : list string;
  workspace : string
}.

(** The struct [s.spec] points to.  Where the pointer is nil the code
    panics before it uses a field; [pointee] is then the zero value of the
    struct, which has no entries. *)
Definition pointee (s : ToolInstallStep) : StepToolInstallSpec :=
  match spec s with
  | Some sp => sp
  | None => mkSpec [] (mkS3 "" "" "" "" "" false "" "")
  end.

(** A [*step.Tool]: [None] is nil, [Some i] points to entry [i] of
    [Installs]. *)
Definition ToolPtr : Type := option nat.

(** Calls to the collaborators of the step, with their arguments. *)
Inductive Event : Type :=
| EvS3NewClient (endpoint ak sk region : string) (insecure : bool) (provider : string)
| EvS3Download (bucket key dest : string)
| EvHttpDownload (url dest : string)
| EvS3Upload (bucket src key : string)
| EvNewUUID
| EvWriteFile (name content : string) (perm : N)
| EvStdoutPipe
| EvStderrPipe
| EvCmdRun (name : string) (args : list string) (dir : string) (env : list string).

(** The collaborators: [outcome] answers a call from the calls made so
    far ([None]: no error, [Some e]: the error with message [e]);
    [uuid_ID] is the number [uid.ID()] of the next UUID. *)
Record Oracle : Type := mkOracle {
  outcome : list Event -> Event -> option string;
  uuid_ID : list Event -> N
}.

Record World : Type := mkWorld {
  step : ToolInstallStep;
  trace : list Event
}.

(** What a Go function call comes to: it returns ([Ok]), returns a non-nil
    error ([Err], with the error's message) or panics. *)
Inductive Result (A : Type) : Type :=
| Ok (a : A)
| Err (e : string)
| Panic (reason : string).

Arguments Ok {A} a.
Arguments Err {A} e.
Arguments Panic {A} reason.

(** The monad of the step: read the oracle, thread the world. *)
Definition M (A : Type) : Type := Oracle -> World -> Result A * World.

Definition ret {A} (a : A) : M A := fun _ w => (Ok a, w).

Definition bind {A B} (m : M A) (k : A -> M B) : M B :=
  fun o w =>
    match m o w with
    | (Ok a, w') => k a o w'
    | (Err e, w') => (Err e, w')
    | (Panic r, w') => (Panic r, w')
    end.

Definition fail {A} (e : string) : M A := fun _ w => (Err e, w).

Definition panic {A} (reason : string) : M A := fun _ w => (Panic reason, w).

Declare Scope go_scope.
Delimit Scope go_scope with go.
Notation "x <- m ;; k" := (bind m (fun x => k))
  (at level 61, m at next level, right associativity) : go_scope.
Notation "m ;; k" := (bind m (fun _ => k))
  (at level 61, right associativity) : go_scope.
Local Open Scope go_scope.

Definition get : M ToolInstallStep := fun _ w => (Ok (step w), w).

Definition put (s : ToolInstallStep) : M unit :=
  fun _ w => (Ok tt, mkWorld s (trace w)).

(** A call to a collaborator: recorded, answered by the oracle. *)
Definition call (e : Event) : M (option string) :=
  fun o w => (Ok (outcome o (trace w) e), mkWorld (step w) (trace w ++ [e])).

(** [uuid.NewUUID()] followed by [uid.ID()], a [uint32]. *)
Definition NewUUID_ID : M N :=
  fun o w => (Ok (uuid_ID o (trace w) mod 2 ^ 32)%N,
              mkWorld (step w) (trace w ++ [EvNewUUID])).

(** Field updates of the step. *)
Definition set_envs (s : ToolInstallStep) (e : list string) : ToolInstallStep :=
  mkStep (spec s) e (secretEnvs s) (workspace s).

Definition set_Subfolder (c : S3) (sub : string) : S3 :=
  mkS3 (Endpoint c) (Ak c) (Sk c) (Region c) (Bucket c) (Insecure c) (Provider c) sub.

(** Field updates of the struct [s.spec] points to; there is nothing to
    update behind a nil pointer. *)
Definition set_S3Storage (s : ToolInstallStep) (c : S3) : ToolInstallStep :=
  mkStep (option_map (fun sp => mkSpec (Installs sp) c) (spec s))
         (envs s) (secretEnvs s) (workspace s).

Definition set_Installs (s : ToolInstallStep) (l : list (option Tool)) : ToolInstallStep :=
  mkStep (option_map (fun sp => mkSpec l (S3Storage sp)) (spec s))
         (envs s) (secretEnvs s) (workspace s).

Definition set_Scripts (t : Tool) (scripts : list string) : Tool :=
  mkTool (Name t) (Version t) (Download t) (Envs t) scripts.

(** Replace entry [i] of a slice; nothing to replace out of range. *)
Fixpoint update {A} (l : list A) (i : nat) (a : A) : list A :=
  match l, i with
  | [], _ => []
  | _ :: rest, O => a :: rest
  | x :: rest, S j => x :: update rest j a
  end.

(** A field access through [s.spec]: the struct it points to, or the
    panic of a nil pointer. *)
Definition deref_spec : M StepToolInstallSpec :=
  fun _ w =>
    match spec (step w) with
    | Some sp => (Ok sp, w)
    | None => (Panic "invalid memory address or nil pointer dereference", w)
    end.

(** Read the tool a non-nil pointer points to.  The pointers [Run]
    hands on are the entries of the spec of the step; a pointer to no
    entry does not arise there, and reading it is a panic here. *)
Definition load (p : nat) : M Tool :=
  fun _ w =>
    match nth_error (Installs (pointee (step w))) p with
    | Some (Some t) => (Ok t, w)
    | _ => (Panic "invalid memory address or nil pointer dereference", w)
    end.

(** Write the tool a non-nil pointer points to. *)
Definition store (p : nat) (t : Tool) : M unit :=
  fun _ w =>
    (Ok tt, mkWorld (set_Installs (step w) (update (Installs (pointee (step w))) p (Some t)))
                    (trace w)).

(** A field access through a [*step.Tool]. *)
Definition deref (tool : ToolPtr) : M Tool :=
  match tool with
  | None => panic "invalid memory address or nil pointer dereference"
  | Some p => load p
  end.

Definition newline : string := String (ascii_of_nat 10) EmptyString.

(** The permission bits [0700]. *)
Definition perm_0700 : N := 7 * 64.

(* ===================================================================== *)
(** * Reading a trace *)
(* ===================================================================== *)

(** The calls made between two worlds of one run. *)
Definition events_since (w w' : World) : list Event :=
  skipn (List.length (trace w)) (trace w').

Definition is_S3NewClient (e : Event) : bool :=
  match e with EvS3NewClient _ _ _ _ _ _ => true | _ => false end.

Definition is_S3Download (e : Event) : bool :=
  match e with EvS3Download _ _ _ => true | _ => false end.

Definition is_HttpDownload (e : Event) : bool :=
  match e with EvHttpDownload _ _ => true | _ => false end.

Definition is_S3Upload (e : Event) : bool :=
  match e with EvS3Upload _ _ _ => true | _ => false end.

Definition is_CmdRun (e : Event) : bool :=
  match e with EvCmdRun _ _ _ _ => true | _ => false end.

(** A call that goes to the network: the cache store or the origin. *)
Definition is_network (e : Event) : bool :=
  is_S3NewClient e || is_S3Download e || is_HttpDownload e || is_S3Upload e.

(** The key of the cache store a call reads or writes. *)
Definition key_of_call (e : Event) : option string :=
  match e with
  | EvS3Download _ key _ => Some key
  | EvS3Upload _ _ key => Some key
  | _ => None
  end.

(** The environments of the commands run in a trace, in order. *)
Fixpoint cmd_envs (tr : list Event) : list (list string) :=
  match tr with
  | [] => []
  | EvCmdRun _ _ _ env :: rest => env :: cmd_envs rest
  | _ :: rest => cmd_envs rest
  end.

(** Two oracles that answer alike except, possibly, to an upload. *)
Definition same_but_upload (o o' : Oracle) : Prop :=
  (forall h e, is_S3Upload e = false -> outcome o' h e = outcome o h e) /\
  (forall h, uuid_ID o' h = uuid_ID o h).

(** The normalized assignments of the tools of a list, one tool after
    the other. *)
Fixpoint toolEnvs (normalize : list string -> list string) (tools : list Tool)
  : list string :=
  match tools with
  | [] => []
  | t :: rest => normalize (Envs t) ++ toolEnvs normalize rest
  end.

(** The environments of the commands of a slice of tools when all of them
    get to run, starting from the environment [base]: a tool adds its
    normalized assignments to the environment of the tool before it.  The
    loop does not get past a nil entry. *)
Fixpoint expected_envs (normalize : list string -> list string)
         (base : list string) (tools : list (option Tool)) : list (list string) :=
  match tools with
  | [] => []
  | None :: _ => []
  | Some t :: rest =>
      let env := base ++ normalize (Envs t) in
      env :: expected_envs normalize env rest
  end.

(** Two slices of the same length related entry by entry. *)
Definition pointwise {A} (R : A -> A -> Prop) (l l' : list A) (j : nat) : Prop :=
  match nth_error l j, nth_error l' j with
  | Some a, Some a' => R a a'
  | None, None => True
  | _, _ => False
  end.

(** A path element [filepath.Clean] keeps as it is: not empty, not "." or
    "..", without a separator. *)
Definition plain (s : string) : bool :=
  negb (String.eqb s "") && negb (String.eqb s ".") && negb (String.eqb s "..") &&
  negb (strings.IndexByte s "/"%char).

(** ** Taking a token out of a command *)

(** [token] occurs in [s] at byte [i]. *)
Definition occurs_at (token s : string) (i : nat) : bool :=
  String.prefix token (strings.slice_from s i).

(** [erased token s r]: [r] is [s] with every occurrence of [token]
    replaced by the empty string.  The occurrences are read from the
    left: a string in which the token occurs nowhere stays as it is;
    otherwise the string is cut at its first occurrence, [a] before it
    and [rest] after it, the occurrence is taken out and [rest] is
    treated alike. *)
Inductive erased (token : string) : string -> string -> Prop :=
| erased_none : forall s,
    (forall i, occurs_at token s i = false) ->
    erased token s s
| erased_first : forall a rest r,
    (forall i, i < String.length a ->
               occurs_at token (a ++ token ++ rest) i = false) ->
    erased token rest r ->
    erased token (a ++ token ++ rest) (a ++ r).

(* ===================================================================== *)
(** * The step *)
(* ===================================================================== *)

Section Step.

(** The constants of package [config] and the temporary directory are
    not among the sources: they are parameters of the development. *)
Variable ConstructCachePath : string.  (* config.ConstructCachePath *)
Variable FilepathParam : string.       (* config.FilepathParam *)
Variable Home : string.                (* config.Home() *)
Variable TempDir : string.             (* os.TempDir() *)

(** [func Environs(envs []string) []string]. *)
Fixpoint Environs (envs : list string) : list string :=
  match envs with
  | [] => []
  | val :: rest =>
      if String.eqb val "" then Environs rest
      else if negb (Nat.eqb (List.length (strings.Split val "="%char)) 2) then Environs rest
      else strings.Replace val "$HOME" Home (-1) :: Environs rest
  end.

(** [func GetObjectPath(name, subFolder string) string]. *)
Definition GetObjectPath (name subFolder : string) : string :=
  if negb (String.eqb subFolder "")
  then strings.TrimLeft (filepath.Join [subFolder; name]) "/"
  else strings.TrimLeft name "/".

(** [fmt.Sprintf("%s/%s-v%s", config.ConstructCachePath, tool.Name, tool.Version)]. *)
Definition cacheSubfolder (t : Tool) : string :=
  (ConstructCachePath ++ "/" ++ Name t ++ "-v" ++ Version t)%string.

(** [filepath[len(filepath)-1]] for [filepath := strings.Split(tool.Download, "/")]. *)
Definition fileNameOf (download : string) : string :=
  last (strings.Split download "/"%char) EmptyString.

(** The block under [if tool.Download != ""]: it leaves the artifact at
    [tmpPath], returned here, or returns the error of the origin
    download. *)
Definition download (t : Tool) : M string :=
  sp <- deref_spec ;;
  s <- get ;;
  put (set_S3Storage s (set_Subfolder (S3Storage sp) (cacheSubfolder t))) ;;
  let fileName := fileNameOf (Download t) in
  let tmpPath := path.Join [TempDir; fileName] in
  sp <- deref_spec ;;
  let c := S3Storage sp in
  err <- call (EvS3NewClient (Endpoint c) (Ak c) (Sk c) (Region c) (Insecure c) (Provider c)) ;;
  match err with
  | None =>
      let objectKey := GetObjectPath fileName (Subfolder c) in
      err <- call (EvS3Download (Bucket c) objectKey tmpPath) ;;
      match err with
      | Some _ =>
          err <- call (EvHttpDownload (Download t) tmpPath) ;;
          match err with
          | Some e => fail ("download package " ++ Download t ++ " error: " ++ e)%string
          | None =>
              call (EvS3Upload (Bucket c) tmpPath objectKey) ;;
              ret tmpPath
          end
      | None => ret tmpPath
      end
  | Some _ =>
      err <- call (EvHttpDownload (Download t) tmpPath) ;;
      match err with
      | Some e => fail e
      | None => ret tmpPath
      end
  end.

(** [func (s *ToolInstallStep) runIntallationScripts(tool *step.Tool) error].
    The two goroutines that copy the output of the command to the log
    are not modelled. *)
Definition runIntallationScripts (tool : ToolPtr) : M unit :=
  match tool with
  | None => ret tt
  | Some p =>
      let openProxy := false in
      let proxyScript := EmptyString in
      let disProxyScript := EmptyString in
      let scripts := ["set -ex"] in
      t <- load p ;;
      s <- get ;;
      put (set_envs s (envs s ++ Environs (Envs t))) ;;
      let scripts := if openProxy then scripts ++ [proxyScript] else scripts in
      tmpPath <- (if negb (String.eqb (Download t) "") then download t
                  else ret EmptyString) ;;
      (* for j, command := range tool.Scripts { tool.Scripts[j] = ... } *)
      store p (set_Scripts t
                 (map (fun command => strings.ReplaceAll command FilepathParam tmpPath)
                      (Scripts t))) ;;
      t <- load p ;;
      let scripts := scripts ++ Scripts t in
      let scripts := if openProxy then scripts ++ [disProxyScript] else scripts in
      uid <- NewUUID_ID ;;
      let file := filepath.Join [TempDir; ("install_script_" ++ fmt.d uid ++ ".sh")%string] in
      err <- call (EvWriteFile file (strings.Join scripts newline) perm_0700) ;;
      match err with
      | Some e => fail ("write script file error: " ++ e)%string
      | None =>
          err <- call EvStdoutPipe ;;
          match err with
          | Some e => fail e
          | None =>
              err <- call EvStderrPipe ;;
              match err with
              | Some e => fail e
              | None =>
                  s <- get ;;
                  err <- call (EvCmdRun "/bin/bash" [file] (workspace s) (envs s)) ;;
                  match err with
                  | Some e => fail e
                  | None => ret tt
                  end
              end
          end
      end
  end.

(** The pointer held by entry [i] of [s.spec.Installs], inside the loop
    of [Run]. *)
Definition pointer_at (i : nat) : M ToolPtr :=
  fun _ w =>
    match nth_error (Installs (pointee (step w))) i with
    | Some (Some _) => (Ok (Some i), w)
    | Some None => (Ok None, w)
    | None => (Panic "index out of range", w)
    end.

(** [for _, tool := range s.spec.Installs], from entry [i] on, [todo]
    entries left.  [log.Infof] reads [tool.Name] and [tool.Version]
    before the tool is handed to [runIntallationScripts]. *)
Fixpoint range_Installs (todo i : nat) : M unit :=
  match todo with
  | O => ret tt
  | S todo' =>
      tool <- pointer_at i ;;
      deref tool ;;
      runIntallationScripts tool ;;
      range_Installs todo' (S i)
  end.

(** [func (s *ToolInstallStep) Run(ctx context.Context) error].  The log
    lines and the clock are not modelled, but for the read of [tool.Name]
    and [tool.Version] at each entry.  [s.spec.Installs] is read through
    the pointer [s.spec]: a nil pointer panics there. *)
Definition Run : M unit :=
  sp <- deref_spec ;;
  range_Installs (List.length (Installs sp)) 0.

(** ** What the claims speak about *)

(** [tmpPath] once the block under [if tool.Download != ""] is over. *)
Definition tmpPathOf (t : Tool) : string :=
  if String.eqb (Download t) "" then EmptyString
  else path.Join [TempDir; fileNameOf (Download t)].

(** [objectKey], the key of the artifact in the cache store. *)
Definition objectKeyOf (t : Tool) : string :=
  GetObjectPath (fileNameOf (Download t)) (cacheSubfolder t).

(** The commands of a tool after the loop over [tool.Scripts]. *)
Definition substituted (t : Tool) : list string :=
  map (fun command => strings.ReplaceAll command FilepathParam (tmpPathOf t)) (Scripts t).

(** The bytes handed to [ioutil.WriteFile]. *)
Definition scriptBody (t : Tool) : string :=
  strings.Join ("set -ex" :: substituted t) newline.

(** The name of the script file for the number [uid.ID()]. *)
Definition scriptFile (uid : N) : string :=
  filepath.Join [TempDir; ("install_script_" ++ fmt.d uid ++ ".sh")%string].

(** The calls of the block under [if tool.Download != ""]. *)
Definition call_NewClient (c : S3) : Event :=
  EvS3NewClient (Endpoint c) (Ak c) (Sk c) (Region c) (Insecure c) (Provider c).

Definition call_S3Download (c : S3) (t : Tool) : Event :=
  EvS3Download (Bucket c) (objectKeyOf t) (tmpPathOf t).

Definition call_HttpDownload (t : Tool) : Event :=
  EvHttpDownload (Download t) (tmpPathOf t).

Definition call_S3Upload (c : S3) (t : Tool) : Event :=
  EvS3Upload (Bucket c) (tmpPathOf t) (objectKeyOf t).

(** The calls from [uuid.NewUUID] to [cmd.Run], when none of them fails. *)
Definition script_calls (file body dir : string) (env : list string) : list Event :=
  [EvNewUUID; EvWriteFile file body perm_0700; EvStdoutPipe; EvStderrPipe;
   EvCmdRun "/bin/bash" [file] dir env].

(** [installed o n w w']: from world [w], the tools of entries [0 .. n-1]
    were installed one after the other, each call of
    [runIntallationScripts] returned nil, and the world is now [w']. *)
Inductive installed (o : Oracle) : nat -> World -> World -> Prop :=
| installed_O : forall w, installed o 0 w w
| installed_S : forall n w w1 w2 t,
    installed o n w w1 ->
    nth_error (Installs (pointee (step w1))) n = Some (Some t) ->
    runIntallationScripts (Some n) o w1 = (Ok tt, w2) ->
    installed o (S n) w w2.

(** What [Run] may change in a tool: its [Scripts], which become the
    substituted commands. *)
Definition tool_frame (t t' : Tool) : Prop :=
  Name t' = Name t /\ Version t' = Version t /\ Download t' = Download t /\
  Envs t' = Envs t /\ (Scripts t' = Scripts t \/ Scripts t' = substituted t).

Definition entry_frame (e e' : option Tool) : Prop :=
  match e, e' with
  | None, None => True
  | Some t, Some t' => tool_frame t t'
  | _, _ => False
  end.

(** What [Run] may change in the storage configuration: [Subfolder],
    which becomes the cache folder of a tool with a download URL. *)
Definition storage_frame (tools : list (option Tool)) (c c' : S3) : Prop :=
  Endpoint c' = Endpoint c /\ Ak c' = Ak c /\ Sk c' = Sk c /\
  Region c' = Region c /\ Bucket c' = Bucket c /\ Insecure c' = Insecure c /\
  Provider c' = Provider c /\
  (Subfolder c' = Subfolder c \/
   exists t, In (Some t) tools /\ Download t <> EmptyString /\
             Subfolder c' = cacheSubfolder t).

Definition spec_frame (sp sp' : StepToolInstallSpec) : Prop :=
  Forall2 entry_frame (Installs sp) (Installs sp') /\
  storage_frame (Installs sp) (S3Storage sp) (S3Storage sp').

(** The same for the loop from entry [i] on: the entries before [i] are
    not touched, and it is a tool from entry [i] on that names the cache
    folder. *)
Definition frame_from (i : nat) (sp sp' : StepToolInstallSpec) : Prop :=
  List.length (Installs sp') = List.length (Installs sp) /\
  (forall j, j < i -> nth_error (Installs sp') j = nth_error (Installs sp) j) /\
  (forall j, pointwise entry_frame (Installs sp) (Installs sp') j) /\
  let c := S3Storage sp in
  let c' := S3Storage sp' in
  Endpoint c' = Endpoint c /\ Ak c' = Ak c /\ Sk c' = Sk c /\
  Region c' = Region c /\ Bucket c' = Bucket c /\ Insecure c' = Insecure c /\
  Provider c' = Provider c /\
  (Subfolder c' = Subfolder c \/
   exists j t, i <= j /\ nth_error (Installs sp) j = Some (Some t) /\
               Download t <> EmptyString /\ Subfolder c' = cacheSubfolder t).

End Step.

Arguments Environs Home envs : assert.
Arguments GetObjectPath name subFolder : assert.

(* ===================================================================== *)
(** * More ways to read a trace *)
(* ===================================================================== *)

(** Every command of the trace is "/bin/bash <file>" in directory [dir],
    for a file written earlier in the trace, or listed in [written], with
    the permission bits 0700. *)
Fixpoint runs_written (dir : string) (written : list string) (tr : list Event)
  : bool :=
  match tr with
  | [] => true
  | EvWriteFile name _ perm :: rest =>
      runs_written dir (if N.eqb perm perm_0700 then name :: written else written) rest
  | EvCmdRun name args cwd _ :: rest =>
      String.eqb name "/bin/bash" && String.eqb cwd dir &&
      match args with
      | [file] => existsb (String.eqb file) written
      | _ => false
      end &&
      runs_written dir written rest
  | _ :: rest => runs_written dir written rest
  end.

(* ===================================================================== *)
(** * The Sonar client (package [sonar]) *)
(* ===================================================================== *)

Module sonar.

Definition SonarWorkDirKey : string := "sonar.working.directory".
Definition CETaskIDKey : string := "ceTaskId".
Definition ProjectKey : string := "projectKey".
Definition BranchKey : string := "branch".

(** The body of the loop of [getKeyValue] at one line: [Some v] when the
    loop returns [v], [None] when it goes on to the next line. *)
Definition kvLine (kvStr inputKey : string) : option string :=
  let kvStr := strings.TrimSpace kvStr in
  let index := strings.Index kvStr "="%char in
  if (index <? 0)%Z then None
  else
    let key := strings.TrimSpace (strings.slice_to kvStr (Z.to_nat index)) in
    if Nat.eqb (String.length key) 0 then None
    else if negb (String.eqb key inputKey) then None
    else Some (strings.TrimSpace (strings.slice_from kvStr (Z.to_nat (index + 1)))).

(** [for _, kvStr := range kvStrs], then [return ""]. *)
Fixpoint range_kvStrs (kvStrs : list string) (inputKey : string) : string :=
  match kvStrs with
  | [] => EmptyString
  | kvStr :: rest =>
      match kvLine kvStr inputKey with
      | Some value => value
      | None => range_kvStrs rest inputKey
      end
  end.

(** [func getKeyValue(content, inputKey string) string]. *)
Definition getKeyValue (content inputKey : string) : string :=
  range_kvStrs (strings.Split content (ascii_of_nat 10)) inputKey.

Definition GetSonarWorkDir (content : string) : string :=
  getKeyValue content SonarWorkDirKey.

Definition GetSonarCETaskID (content : string) : string :=
  getKeyValue content CETaskIDKey.

Definition GetProjectKey (content : string) : string :=
  getKeyValue content ProjectKey.

Definition GetBranch (content : string) : string :=
  getKeyValue content BranchKey.

(** [type CETaskStatus string] and its constants. *)
Definition CETaskStatus : Type := string.
Definition CETaskPending : CETaskStatus := "PENDING".
Definition CETaskInProgress : CETaskStatus := "IN_PROGRESS".
Definition CETaskSuccess : CETaskStatus := "SUCCESS".
Definition CETaskFailed : CETaskStatus := "FAILED".
Definition CETaskCanceled : CETaskStatus := "CANCELED".

(** [type CETask struct]. *)
Record CETask : Type := mkCETask {
  ID : string;
  Type_ : string;
  ComponentID : string;
  ComponentKey : string;
  AnalysisID : string;
  Status : CETaskStatus;
  SubmitterLogin : string;
  WarningCount : Z;
  SubmittedAt : string;
  StartedAt : string;
  ExecutedAt : string
}.

(** [type CETaskInfo struct]. *)
Record CETaskInfo : Type := mkCETaskInfo {
  Task : CETask
}.

(** What a call returns that gives a [*CETaskInfo] and an error: the
    task, or the message of the error. *)
Inductive Fetched : Type :=
| Fetched_task (res : CETaskInfo)
| Fetched_error (err : string).

(** [func (c *Client) GetCETaskInfo(taskID string)], which returns a
    [*CETaskInfo] and an error.  [reply] is what [c.Client.Get] comes to:
    the decoded answer of the server, or an error. *)
Definition GetCETaskInfo (taskID : string) (reply : Fetched) : Fetched :=
  match reply with
  | Fetched_error err =>
      Fetched_error
        ("get sonar compute engine task: " ++ taskID ++ " info error: " ++ err)%string
  | Fetched_task res => Fetched_task res
  end.

(** The case [select] takes at one turn of the loop of
    [WaitForCETaskTobeDone]: the timeout channel, or the ticker, with
    what the request made at that tick comes to. *)
Inductive Fired : Type :=
| Timeouts
| Tick (reply : Fetched).

(** [func (c *Client) WaitForCETaskTobeDone(taskID string, timeout
    time.Duration) (string, error)], along the cases [select] takes.  The
    function returns a string and an error ([None] for nil); the result
    is [None] while the loop still waits at the end of [fired]. *)
Fixpoint WaitForCETaskTobeDone (taskID : string) (fired : list Fired)
  : option (string * option string) :=
  match fired with
  | [] => None
  | Timeouts :: _ => Some (EmptyString, Some "sonar ce task excution timeout 10m")
  | Tick reply :: rest =>
      match GetCETaskInfo taskID reply with
      | Fetched_error err =>
          Some (EmptyString, Some ("get sonar ce task info error: " ++ err)%string)
      | Fetched_task taskInfo =>
          if String.eqb (Status (Task taskInfo)) CETaskSuccess
          then Some (AnalysisID (Task taskInfo), None)
          else if String.eqb (Status (Task taskInfo)) CETaskCanceled
                  || String.eqb (Status (Task taskInfo)) CETaskFailed
          then Some (EmptyString,
                     Some ("sonar ce task status was " ++ Status (Task taskInfo))%string)
          else WaitForCETaskTobeDone taskID rest
      end
  end.

(** A turn that ends the loop: the timeout, a request that fails, or an
    answer whose status is SUCCESS, CANCELED or FAILED. *)
Definition terminal (f : Fired) : bool :=
  match f with
  | Timeouts => true
  | Tick (Fetched_error _) => true
  | Tick (Fetched_task info) =>
      String.eqb (Status (Task info)) CETaskSuccess
      || String.eqb (Status (Task info)) CETaskCanceled
      || String.eqb (Status (Task info)) CETaskFailed
  end.

(** An answer of the server with the given status and analysis. *)
Definition answer (status analysis : string) : Fired :=
  Tick (Fetched_task
          (mkCETaskInfo
             (mkCETask "AX1" "REPORT" "c1" "proj" analysis status "admin" 0
                       "" "" ""))).

(** A properties text: one line "key=value" per pair. *)
Definition render (kvs : list (string * string)) : string :=
  strings.Join (map (fun kv => (fst kv ++ "=" ++ snd kv)%string) kvs) newline.

(** The value of the first pair with key [k], the empty string when
    there is none. *)
Fixpoint first_value (kvs : list (string * string)) (k : string) : string :=
  match kvs with
  | [] => EmptyString
  | (k', v) :: rest => if String.eqb k' k then v else first_value rest k
  end.

(** A key [getKeyValue] can find: not empty, without white space around
    it, on one line, without "=". *)
Definition proper_key (k : string) : Prop :=
  k <> EmptyString /\ strings.TrimSpace k = k /\
  strings.IndexByte k "="%char = false /\
  strings.IndexByte k (ascii_of_nat 10) = false.

(** A value a line gives back as it is. *)
Definition proper_value (v : string) : Prop :=
  strings.TrimSpace v = v /\ strings.IndexByte v (ascii_of_nat 10) = false.

End sonar.

(* ===================================================================== *)
(** * Sample collaborators and specs *)
(* ===================================================================== *)

(** Sample values of the parameters. *)
Definition sample_cache : string := "cache".
Definition sample_placeholder : string := "${FILEPATH}".
Definition sample_home : string := "/root".
Definition sample_tmp : string := "/tmp".

Definition sample_Run : M unit :=
  Run sample_cache sample_placeholder sample_home sample_tmp.

Definition sample_install : ToolPtr -> M unit :=
  runIntallationScripts sample_cache sample_placeholder sample_home sample_tmp.

(** Every call succeeds. *)
Definition all_ok : Oracle := mkOracle (fun _ _ => None) (fun _ => 7%N).

(** The calls selected by [bad] fail with message [msg]. *)
Definition failing (bad : Event -> bool) (msg : string) : Oracle :=
  mkOracle (fun _ e => if bad e then Some msg else None) (fun _ => 7%N).

(** The command of the tool of entry [n] fails with message [msg]. *)
Definition command_fails (n : nat) (msg : string) : Oracle :=
  mkOracle (fun h e => if is_CmdRun e && Nat.eqb (List.length (cmd_envs h)) n
                       then Some msg else None)
           (fun _ => 7%N).

Definition no_storage : S3 := mkS3 "" "" "" "" "" false "" "".

Definition step_of (tools : list (option Tool)) (base secret : list string)
  : ToolInstallStep :=
  mkStep (Some (mkSpec tools no_storage)) base secret "/workspace".

(** The step [NewToolInstallStep] returns for a nil spec. *)
Definition nil_step (base secret : list string) : ToolInstallStep :=
  mkStep None base secret "/workspace".

Definition start (s : ToolInstallStep) : World := mkWorld s [].

Definition node_tool : Tool :=
  mkTool "node" "18.0.0" "https://nodejs.org/dist/node.tar.gz"
         ["PATH=$HOME/node/bin"; "NODE_ENV"]
         ["tar -xzf ${FILEPATH} -C /opt"].

(** The same tool with a download URL that ends in a separator. *)
Definition node_dir_tool : Tool :=
  mkTool "node" "18.0.0" "https://nodejs.org/dist/v18.0.0/" [] ["./install.sh"].

Definition tgz_tool : Tool :=
  mkTool "node" "18.0.0" "http://example/tool.tgz" ["A=1"] ["tar xf ${FILEPATH}"].

Definition go_tool : Tool :=
  mkTool "go" "1.20" "" ["B=2"] ["echo hi"].

Definition make_tool : Tool :=
  mkTool "make" "4.3" "" ["C=3"] ["make --version"].

(** A tool without a download URL whose commands hold the placeholder. *)
Definition jdk_tool : Tool :=
  mkTool "jdk" "17" "" ["JAVA_HOME=$HOME/jdk"]
         ["tar -xf ${FILEPATH} -C /opt"; "rm -f ${FILEPATH} ${FILEPATH}.sha256"].

(* ===================================================================== *)
(** * Properties *)
(* ===================================================================== *)

(** ** Strings *)

Lemma append_nil_r (s : string) : (s ++ "")%string = s.
Proof. induction s; simpl; congruence. Qed.

Lemma append_assoc (a b c : string) : ((a ++ b) ++ c = a ++ b ++ c)%string.
Proof. induction a; simpl; congruence. Qed.

Lemma prefix_append (s r : string) : String.prefix s (s ++ r) = true.
Proof.
  induction s as [|c s IH]; simpl; [destruct r; reflexivity|].
  destruct (ascii_dec c c); [exact IH|congruence].
Qed.

Lemma Contains_prefix (s sub : string) :
  String.prefix sub s = true -> strings.Contains s sub = true.
Proof. intros H. destruct s; simpl in *; rewrite H; reflexivity. Qed.

(** A string contains each of its parts. *)
Lemma Contains_append (pre sub post : string) :
  strings.Contains (pre ++ sub ++ post) sub = true.
Proof.
  induction pre as [|c pre IH]; simpl.
  - apply Contains_prefix, prefix_append.
  - rewrite IH. apply orb_true_r.
Qed.

Lemma Split_not_nil (s : string) (sep : ascii) : strings.Split s sep <> [].
Proof.
  destruct s as [|c s]; simpl; [discriminate|].
  destruct (Ascii.eqb c sep); [discriminate|].
  destruct (strings.Split s sep); discriminate.
Qed.

(** Joining the pieces with the separator gives the string back. *)
Lemma Join_Split (s : string) (sep : ascii) :
  strings.Join (strings.Split s sep) (String sep EmptyString) = s.
Proof.
  induction s as [|c s IH]; [reflexivity|]. simpl.
  destruct (Ascii.eqb_spec c sep) as [->|Hc].
  - destruct (strings.Split s sep) eqn:E; [now apply Split_not_nil in E|].
    simpl. f_equal. exact IH.
  - destruct (strings.Split s sep) as [|h [|h' t]] eqn:E;
      [now apply Split_not_nil in E| |]; simpl in *; congruence.
Qed.

Lemma Join_last (l : list string) (sep : string) :
  l <> [] -> exists pre, strings.Join l sep = (pre ++ last l EmptyString)%string.
Proof.
  induction l as [|e [|e' l] IH]; intros H; [congruence| |].
  - exists EmptyString. reflexivity.
  - destruct IH as [pre E]; [discriminate|].
    exists (e ++ sep ++ pre)%string.
    change (strings.Join (e :: e' :: l) sep)
      with (e ++ sep ++ strings.Join (e' :: l) sep)%string.
    rewrite E. change (last (e :: e' :: l) EmptyString) with (last (e' :: l) EmptyString).
    now rewrite !append_assoc.
Qed.

(** The last piece of a string ends the string. *)
Lemma fileNameOf_suffix (url : string) :
  exists pre, url = (pre ++ fileNameOf url)%string.
Proof.
  destruct (Join_last (String "/"%char EmptyString) (@Split_not_nil url "/"%char))
    as [pre E].
  exists pre. unfold fileNameOf. rewrite <- E. symmetry. apply Join_Split.
Qed.

Lemma IndexByte_append (a b : string) (c : ascii) :
  strings.IndexByte (a ++ b) c = strings.IndexByte a c || strings.IndexByte b c.
Proof.
  induction a as [|d a IH]; simpl; [reflexivity|].
  rewrite IH. apply orb_assoc.
Qed.

(** A string without the separator is its only piece. *)
Lemma Split_no_sep (a : string) (sep : ascii) :
  strings.IndexByte a sep = false -> strings.Split a sep = [a].
Proof.
  induction a as [|c a IH]; simpl; intros H; [reflexivity|].
  rewrite Ascii.eqb_sym in H. apply orb_false_elim in H as [Hc Ha].
  rewrite Hc, (IH Ha). reflexivity.
Qed.

Lemma Split_append_sep (a b : string) (sep : ascii) :
  strings.IndexByte a sep = false ->
  strings.Split (a ++ String sep b) sep = a :: strings.Split b sep.
Proof.
  induction a as [|c a IH]; simpl; intros H.
  - now rewrite Ascii.eqb_refl.
  - rewrite Ascii.eqb_sym in H. apply orb_false_elim in H as [Hc Ha].
    rewrite Hc, (IH Ha). reflexivity.
Qed.

(** A pattern that does not occur is not replaced. *)
Lemma replace_scan_absent (old new : string) (b : option nat) (s : string) :
  strings.Contains s old = false -> strings.replace_scan old new b 0 s = s.
Proof.
  induction s as [|c s IH]; [reflexivity|].
  intros H. cbn [strings.Contains] in H. apply orb_false_elim in H as [Hp Hs].
  cbn [strings.replace_scan]. rewrite Hp, andb_false_r, (IH Hs). reflexivity.
Qed.

Lemma ReplaceAll_absent (s old new : string) :
  strings.Contains s old = false -> strings.ReplaceAll s old new = s.
Proof.
  intros H. unfold strings.ReplaceAll, strings.Replace.
  destruct (String.eqb old new || (-1 =? 0)%Z); [reflexivity|].
  destruct old as [|c old].
  - destruct s; discriminate.
  - now apply replace_scan_absent.
Qed.

(** ** Taking a token out of a string *)

Lemma occurs_at_O (token s : string) :
  occurs_at token s 0 = String.prefix token s.
Proof. unfold occurs_at. destruct s; reflexivity. Qed.

Lemma occurs_at_S (token s : string) (c : ascii) (i : nat) :
  occurs_at token (String c s) (S i) = occurs_at token s i.
Proof. reflexivity. Qed.

Lemma prefix_cut (a : string) :
  forall s, String.prefix a s = true -> exists r, s = (a ++ r)%string.
Proof.
  induction a as [|c a IH]; intros s H; [now exists s|].
  destruct s as [|d s]; [discriminate|]. cbn [String.prefix] in H.
  destruct (Ascii.ascii_dec c d) as [->|_]; [|discriminate].
  destruct (IH s H) as [r ->]. now exists r.
Qed.

Lemma append_length (a b : string) :
  String.length (a ++ b) = String.length a + String.length b.
Proof. induction a as [|c a IH]; cbn; [reflexivity|now rewrite IH]. Qed.

Lemma slice_from_skip (a x : string) :
  strings.slice_from (a ++ x) (String.length a) = x.
Proof.
  induction a as [|c a IH]; [destruct x; reflexivity|exact IH].
Qed.

Lemma occurs_at_cut (token a rest : string) :
  occurs_at token (a ++ token ++ rest) (String.length a) = true.
Proof. unfold occurs_at. rewrite slice_from_skip. apply prefix_append. Qed.

Lemma append_cut (a : string) :
  forall a' x x',
    (a ++ x = a' ++ x')%string -> String.length a = String.length a' ->
    a = a' /\ x = x'.
Proof.
  induction a as [|c a IH]; intros [|c' a'] x x' E L; try discriminate; cbn in *.
  - now split.
  - injection E as -> E. injection L as L.
    destruct (IH _ _ _ E L) as [-> ->]. now split.
Qed.

(** The scan passes over the bytes of an occurrence it has replaced. *)
Lemma replace_scan_skip (old new : string) (b : option nat) (x rest : string) :
  strings.replace_scan old new b (String.length x) (x ++ rest) =
  strings.replace_scan old new b 0 rest.
Proof.
  induction x as [|c x IH]; [reflexivity|].
  cbn [String.length String.append strings.replace_scan]. exact IH.
Qed.

(** A byte at which the token does not start is kept. *)
Lemma erased_cons (token s r : string) (c : ascii) :
  String.prefix token (String c s) = false ->
  erased token s r -> erased token (String c s) (String c r).
Proof.
  intros Hp H. destruct H as [s Hall|a rest r Hcond H].
  - apply erased_none. intros [|i]; [now rewrite occurs_at_O|].
    rewrite occurs_at_S. apply Hall.
  - change (erased token (String c a ++ token ++ rest) (String c a ++ r)).
    apply erased_first; [|exact H].
    intros [|i] Hi; [now rewrite occurs_at_O|].
    cbn [String.append]. rewrite occurs_at_S. apply Hcond. cbn in Hi. lia.
Qed.

(** The scan of [strings.Replace] with an empty replacement takes every
    occurrence out. *)
Lemma replace_scan_erased (c0 : ascii) (t0 : string) :
  forall n s,
    String.length s <= n ->
    erased (String c0 t0) s (strings.replace_scan (String c0 t0) "" None 0 s).
Proof.
  induction n as [|n IH]; intros s Hlen.
  - destruct s as [|c rest]; [|cbn in Hlen; lia].
    apply erased_none. intros [|i]; reflexivity.
  - destruct s as [|c rest]; [apply erased_none; intros [|i]; reflexivity|].
    cbn [strings.replace_scan strings.exhausted negb andb].
    destruct (String.prefix (String c0 t0) (String c rest)) eqn:Hp.
    + destruct (@prefix_cut _ _ Hp) as [r' E]. cbn [String.append] in E.
      injection E as -> ->.
      cbn [strings.spend String.length Nat.pred String.append].
      rewrite replace_scan_skip.
      apply (@erased_first (String c0 t0) "" r').
      * intros i Hi. cbn in Hi. lia.
      * apply IH. cbn [String.length] in Hlen. rewrite append_length in Hlen. lia.
    + apply erased_cons; [exact Hp|]. apply IH. cbn [String.length] in Hlen. lia.
Qed.

(** [strings.ReplaceAll(s, token, "")] is [s] with every occurrence of a
    non-empty token taken out. *)
Lemma ReplaceAll_erased (token s : string) :
  token <> EmptyString -> erased token s (strings.ReplaceAll s token "").
Proof.
  intros Hne. destruct token as [|c0 t0]; [now destruct Hne|].
  unfold strings.ReplaceAll, strings.Replace. cbn [String.eqb orb Z.eqb].
  change (strings.budget (-1)) with (@None nat).
  now apply (@replace_scan_erased c0 t0 (String.length s)).
Qed.

(** With an empty token, which is then the replacement too, the string
    is left as it is. *)
Lemma ReplaceAll_empty (s : string) : strings.ReplaceAll s "" "" = s.
Proof. reflexivity. Qed.

(** Taking a token out has one result. *)
Lemma erased_functional (token s r1 : string) :
  erased token s r1 -> forall r2, erased token s r2 -> r1 = r2.
Proof.
  induction 1 as [s Hall|a rest r Hcond H IH]; intros r2 H2.
  - inversion H2 as [s' Hall' Es|a' rest' r' Hcond' H' Es]; [reflexivity|].
    subst s. specialize (Hall (String.length a')).
    rewrite occurs_at_cut in Hall. discriminate.
  - inversion H2 as [s' Hall' Es|a' rest' r' Hcond' H' Es].
    + specialize (Hall' (String.length a)).
      rewrite ?Es, occurs_at_cut in Hall'. discriminate.
    + destruct (Nat.lt_total (String.length a') (String.length a)) as [L|[L|L]].
      * specialize (Hcond _ L). rewrite <- Es, occurs_at_cut in Hcond. discriminate.
      * destruct (@append_cut _ _ _ _ Es L) as [-> E].
        destruct (@append_cut _ _ _ _ E eq_refl) as [_ ->].
        f_equal. now apply IH.
      * specialize (Hcond' _ L). rewrite Es, occurs_at_cut in Hcond'. discriminate.
Qed.

Lemma map_ReplaceAll_erased (token : string) (l : list string) :
  token <> EmptyString ->
  Forall2 (erased token) l
          (map (fun command => strings.ReplaceAll command token "") l).
Proof.
  intros Hne. induction l as [|command l IH]; constructor;
    [now apply ReplaceAll_erased|exact IH].
Qed.

Lemma map_ReplaceAll_empty (l : list string) :
  map (fun command => strings.ReplaceAll command "" "") l = l.
Proof.
  induction l as [|command l IH]; [reflexivity|].
  cbn [map]. now rewrite IH, ReplaceAll_empty.
Qed.

(** ** Paths *)

Lemma plain_spec (e : string) :
  plain e = true ->
  String.eqb e "" = false /\ String.eqb e "." = false /\
  String.eqb e ".." = false /\ strings.IndexByte e "/"%char = false.
Proof.
  unfold plain. intros H.
  repeat (apply andb_prop in H as [H ?]).
  repeat split; now apply negb_true_iff.
Qed.

(** [Clean] keeps a plain element. *)
Lemma clean_elem_plain (rooted : bool) (out : list string) (e : string) :
  plain e = true -> filepath.clean_elem rooted out e = e :: out.
Proof.
  intros H. apply plain_spec in H as (H1 & H2 & H3 & _).
  unfold filepath.clean_elem. now rewrite H1, H2, H3.
Qed.

Lemma TrimLeft_no_slash (s : string) :
  s <> EmptyString -> strings.IndexByte s "/"%char = false ->
  strings.TrimLeft s "/" = s.
Proof.
  destruct s as [|c s]; [congruence|]. intros _ H.
  cbn [strings.IndexByte strings.TrimLeft] in *.
  rewrite Ascii.eqb_sym in H. apply orb_false_elim in H as [Hc _].
  now rewrite Hc.
Qed.

Lemma TrimLeft_append (root rest : string) :
  strings.TrimLeft root "/" <> EmptyString ->
  strings.TrimLeft (root ++ rest) "/" = (strings.TrimLeft root "/" ++ rest)%string.
Proof.
  induction root as [|c root IH]; [simpl; congruence|].
  cbn [strings.IndexByte strings.TrimLeft String.append].
  destruct (Ascii.eqb c "/"); auto.
Qed.

(** Leading separators only give empty elements, which [Clean] skips. *)
Lemma fold_clean_TrimLeft (rooted : bool) (s : string) (out : list string) :
  fold_left (filepath.clean_elem rooted) (strings.Split s "/"%char) out =
  fold_left (filepath.clean_elem rooted)
            (strings.Split (strings.TrimLeft s "/") "/"%char) out.
Proof.
  induction s as [|c s IH]; [reflexivity|].
  cbn [strings.TrimLeft strings.IndexByte].
  destruct (Ascii.eqb c "/") eqn:E; cbn [orb]; [|reflexivity].
  cbn [strings.Split]. rewrite E. exact IH.
Qed.

(** A path of three plain elements is clean, but for the separators it
    starts with. *)
Lemma Clean_plain_path (root nv f : string) :
  plain (strings.TrimLeft root "/") = true -> plain nv = true -> plain f = true ->
  strings.TrimLeft (filepath.Clean (root ++ "/" ++ nv ++ "/" ++ f)) "/" =
  strings.TrimLeft (root ++ "/" ++ nv ++ "/" ++ f) "/".
Proof.
  intros Hr Hnv Hf.
  pose proof (plain_spec _ Hr) as (Hr1 & _ & _ & Hr4).
  pose proof (plain_spec _ Hnv) as (_ & _ & _ & Hnv4).
  pose proof (plain_spec _ Hf) as (_ & _ & _ & Hf4).
  apply String.eqb_neq in Hr1.
  rewrite (TrimLeft_append root _ Hr1).
  set (r := strings.TrimLeft root "/") in *.
  destruct root as [|c root]; [now subst r|].
  cbn [String.append filepath.Clean].
  change (String c (root ++ String "/" (nv ++ String "/" f)))
    with (String c root ++ String "/" (nv ++ String "/" f))%string.
  rewrite fold_clean_TrimLeft, (TrimLeft_append (String c root) _ Hr1). fold r.
  rewrite !Split_append_sep, Split_no_sep by assumption.
  cbn [fold_left].
  rewrite !clean_elem_plain by assumption.
  cbn [rev app strings.Join].
  assert (Hq : strings.TrimLeft (r ++ "/" ++ nv ++ "/" ++ f) "/" =
               (r ++ "/" ++ nv ++ "/" ++ f)%string).
  { destruct r as [|d r']; [congruence|].
    cbn [strings.IndexByte strings.TrimLeft String.append] in Hr4 |- *.
    rewrite Ascii.eqb_sym in Hr4. apply orb_false_elim in Hr4 as [Hd _].
    now rewrite Hd. }
  destruct (Ascii.eqb c filepath.Separator).
  - cbn [String.append strings.TrimLeft strings.IndexByte Ascii.eqb Bool.eqb orb].
    exact Hq.
  - destruct (String.eqb_spec (r ++ "/" ++ nv ++ "/" ++ f) "") as [E|_]; [|exact Hq].
    destruct r; [congruence|discriminate].
Qed.

(** The name and the version of a tool make a plain element when neither
    holds a separator. *)
Lemma plain_name_version (name version : string) :
  strings.IndexByte name "/"%char = false ->
  strings.IndexByte version "/"%char = false ->
  plain (name ++ "-v" ++ version) = true.
Proof.
  intros Hn Hv.
  assert (Hd : strings.IndexByte (name ++ "-v" ++ version) "v"%char = true).
  { rewrite IndexByte_append. simpl. apply orb_true_r. }
  assert (Hs : strings.IndexByte (name ++ "-v" ++ version) "/"%char = false).
  { rewrite IndexByte_append, Hn. simpl. exact Hv. }
  unfold plain. rewrite Hs.
  destruct (String.eqb_spec (name ++ "-v" ++ version) "") as [E|_];
    [rewrite E in Hd; discriminate|].
  destruct (String.eqb_spec (name ++ "-v" ++ version) ".") as [E|_];
    [rewrite E in Hd; discriminate|].
  destruct (String.eqb_spec (name ++ "-v" ++ version) "..") as [E|_];
    [rewrite E in Hd; discriminate|].
  reflexivity.
Qed.

(** The object key of a tool whose names are plain. *)
Lemma GetObjectPath_plain (root : string) (t : Tool) (f : string) :
  plain (strings.TrimLeft root "/") = true ->
  strings.IndexByte (Name t) "/"%char = false ->
  strings.IndexByte (Version t) "/"%char = false ->
  plain f = true ->
  GetObjectPath f (cacheSubfolder root t) =
  strings.TrimLeft (root ++ "/" ++ Name t ++ "-v" ++ Version t ++ "/" ++ f) "/".
Proof.
  intros Hr Hn Hv Hf.
  pose proof (@Clean_plain_path root _ f Hr (@plain_name_version _ _ Hn Hv) Hf) as E.
  unfold GetObjectPath, cacheSubfolder.
  assert (Hne : String.eqb (root ++ "/" ++ Name t ++ "-v" ++ Version t) "" = false).
  { destruct root; reflexivity. }
  rewrite Hne. cbn [negb filepath.Join strings.Join]. rewrite Hne.
  rewrite !append_assoc in *. exact E.
Qed.
(** ** Slices *)

Lemma nth_error_update_eq A (l : list A) i a x :
  nth_error l i = Some x -> nth_error (update l i a) i = Some a.
Proof.
  revert i; induction l as [|y l IH]; intros [|i] H; simpl in *;
    try discriminate; auto.
Qed.

Lemma nth_error_update_neq A (l : list A) i j a :
  i <> j -> nth_error (update l i a) j = nth_error l j.
Proof.
  revert i j; induction l as [|y l IH]; intros [|i] [|j] H; simpl in *;
    try congruence; auto.
Qed.

Lemma length_update A (l : list A) i a :
  List.length (update l i a) = List.length l.
Proof. revert i; induction l as [|y l IH]; intros [|i]; simpl; auto. Qed.

Lemma skipn_app_length A (l m : list A) : skipn (List.length l) (l ++ m) = m.
Proof. induction l; simpl; auto. Qed.

Lemma events_since_app s tr s' new :
  events_since (mkWorld s tr) (mkWorld s' (tr ++ new)) = new.
Proof. unfold events_since; simpl. apply skipn_app_length. Qed.

Lemma skipn_nth_error A (l : list A) i x :
  nth_error l i = Some x -> skipn i l = x :: skipn (S i) l.
Proof.
  revert i; induction l as [|y l IH]; intros [|i] H; simpl in *;
    try discriminate; [congruence|]. now apply IH.
Qed.

Lemma skipn_S_update A (l : list A) i a :
  skipn (S i) (update l i a) = skipn (S i) l.
Proof.
  revert i; induction l as [|y l IH]; intros [|i]; simpl; auto.
  apply (IH i).
Qed.

Lemma pointwise_Forall2 A (R : A -> A -> Prop) (l l' : list A) :
  (forall j, pointwise R l l' j) -> Forall2 R l l'.
Proof.
  revert l'; induction l as [|a l IH]; intros [|a' l'] H.
  - constructor.
  - destruct (H 0).
  - destruct (H 0).
  - constructor; [exact (H 0)|]. apply IH. intros j. exact (H (S j)).
Qed.

Lemma cmd_envs_app (a b : list Event) : cmd_envs (a ++ b) = cmd_envs a ++ cmd_envs b.
Proof.
  induction a as [|e a IH]; [reflexivity|].
  destruct e; simpl; rewrite ?IH; reflexivity.
Qed.

Lemma cmd_envs_network (net : list Event) :
  forallb is_network net = true -> cmd_envs net = [].
Proof.
  induction net as [|e net IH]; [reflexivity|]. simpl.
  intros H. apply andb_prop in H as [He Hn].
  destruct e; try discriminate; simpl; auto.
Qed.

(** The commands among the calls of one tool. *)
Lemma cmd_envs_calls net k file body dir env :
  forallb is_network net = true -> k <= 5 ->
  cmd_envs (net ++ firstn k (script_calls file body dir env)) =
  if Nat.eqb k 5 then [env] else [].
Proof.
  intros Hn Hk. rewrite cmd_envs_app, (cmd_envs_network _ Hn).
  do 6 (destruct k as [|k]; [reflexivity|]). lia.
Qed.

(** The environment of the [i]-th command is the base environment
    followed by the assignments of the first [i + 1] tools. *)
Lemma expected_envs_nth normalize tools :
  forall base k i env,
    nth_error (firstn k (expected_envs normalize base tools)) i = Some env ->
    exists ts, firstn (S i) tools = map Some ts /\
               env = base ++ toolEnvs normalize ts.
Proof.
  induction tools as [|[t|] tools IH]; intros base k i env H.
  - destruct k, i; discriminate.
  - destruct k as [|k]; [destruct i; discriminate|].
    simpl in H. destruct i as [|i].
    + injection H as <-. exists [t]. split; [reflexivity|].
      cbn [toolEnvs]. now rewrite app_nil_r.
    + apply IH in H as (ts & Hts & ->).
      exists (t :: ts). split.
      * change (firstn (S (S i)) (Some t :: tools))
          with (Some t :: firstn (S i) tools). now rewrite Hts.
      * cbn [toolEnvs]. now rewrite app_assoc.
  - destruct k, i; discriminate.
Qed.

Section Properties.

Variables ConstructCachePath FilepathParam Home TempDir : string.

Local Abbreviation runInst :=
  (runIntallationScripts ConstructCachePath FilepathParam Home TempDir).
Local Abbreviation range := (range_Installs ConstructCachePath FilepathParam Home TempDir).
Local Abbreviation run := (Run ConstructCachePath FilepathParam Home TempDir).

(** Symbolic execution of [runIntallationScripts] at a tool [H] finds in
    the slice: unfold the monad, then case on the download URL and on the
    answer to each call. *)
Ltac unfold_run H :=
  cbv beta iota zeta delta
    [runIntallationScripts download bind ret fail get put call load store
     NewUUID_ID deref_spec step trace spec pointee option_map envs secretEnvs workspace Installs S3Storage
     set_envs set_S3Storage set_Installs set_Subfolder set_Scripts
     Endpoint Ak Sk Region Bucket Insecure Provider Subfolder
     Name Version Download Envs Scripts fst snd];
  rewrite ?H; cbv beta iota.

Ltac cases_run H :=
  repeat (match goal with
          | |- context [nth_error (update ?l ?p ?a) ?p] =>
              rewrite (@nth_error_update_eq _ l p a _ H)
          | |- context [match outcome ?o ?h ?e with _ => _ end] =>
              destruct (outcome o h e) eqn:?
          | |- context [if negb ?b then _ else _] => destruct b eqn:?
          end; cbv beta iota delta [negb fst snd]).

Ltac open_world w t :=
  destruct w as [[[[? [? ? ? ? ? ? ? ?]]|] ? ? ?] ?];
  cbn [step trace spec pointee option_map envs secretEnvs workspace Installs S3Storage] in *;
  [ | exfalso;
      match goal with
      | H : nth_error [] ?p = Some _ |- _ => destruct p; discriminate H
      end ];
  destruct t as [? ? ? ? ?];
  cbn [step trace spec pointee option_map envs secretEnvs workspace Installs S3Storage
       Endpoint Ak Sk Region Bucket Insecure Provider Subfolder
       Name Version Download Envs Scripts] in *.

Ltac exec w t H := open_world w t; unfold_run H; cases_run H.

(** What a tool leaves of the step. *)
Lemma runInst_frame p t o w :
  nth_error (Installs (pointee (step w))) p = Some (Some t) ->
  let w' := snd (runInst (Some p) o w) in
  envs (step w') = envs (step w) ++ Environs Home (Envs t) /\
  secretEnvs (step w') = secretEnvs (step w) /\
  workspace (step w') = workspace (step w) /\
  (Installs (pointee (step w')) = Installs (pointee (step w)) \/
   Installs (pointee (step w')) =
     update (Installs (pointee (step w))) p
            (Some (set_Scripts t (substituted FilepathParam TempDir t)))) /\
  (S3Storage (pointee (step w')) = S3Storage (pointee (step w)) \/
   (Download t <> EmptyString /\
    S3Storage (pointee (step w')) =
      set_Subfolder (S3Storage (pointee (step w))) (cacheSubfolder ConstructCachePath t))).
Proof.
  intros H. exec w t H.
  all: cbv beta iota zeta delta
         [step trace spec pointee option_map envs secretEnvs workspace Installs S3Storage
          substituted tmpPathOf set_Scripts set_Subfolder
          Endpoint Ak Sk Region Bucket Insecure Provider Subfolder
          Name Version Download Envs Scripts];
       rewrite ?Heqb; cbv beta iota.
  all: repeat split; auto.
  all: try (right; split; [ | reflexivity ];
            intros E; subst; discriminate).
Qed.

(** The calls of a tool: calls to the network, then the calls that write
    and run the script, up to the first one that fails. *)
Lemma runInst_calls p t o w :
  nth_error (Installs (pointee (step w))) p = Some (Some t) ->
  exists net k uid,
    trace (snd (runInst (Some p) o w)) =
      trace w ++ net ++
      firstn k (script_calls (scriptFile TempDir uid)
                             (scriptBody FilepathParam TempDir t)
                             (workspace (step w))
                             (envs (step w) ++ Environs Home (Envs t))) /\
    forallb is_network net = true /\
    (Download t = EmptyString -> net = []) /\
    (fst (runInst (Some p) o w) = Ok tt -> k = 5) /\
    (k = 0 -> exists e, fst (runInst (Some p) o w) = Err e) /\
    (Download t = EmptyString -> 2 <= k) /\
    (k = 0 \/ 2 <= k <= 5).
Proof.
  intros H. exec w t H.
  all: cbv beta iota delta [trace]; rewrite <- ?app_assoc; cbn [app].
  all: match goal with
       | |- exists net k uid, ?tr ++ ?l = _ /\ _ =>
           exists (filter is_network l),
                  (List.length (filter (fun e => negb (is_network e)) l));
           eexists
       end.
  all: cbv beta iota zeta delta
         [scriptBody substituted tmpPathOf scriptFile script_calls
          Name Version Download Envs Scripts];
       rewrite ?Heqb; cbn [filter is_network is_S3NewClient is_S3Download
                           is_HttpDownload is_S3Upload orb negb List.length
                           firstn app forallb andb].
  all: repeat split; try reflexivity; try discriminate; try lia; eauto.
  all: try (intros E; apply String.eqb_neq in Heqb; congruence).
  Unshelve. all: exact 0%N.
Qed.

(** The answer to an upload is never looked at. *)
Lemma runInst_ignores_upload tool o o' w :
  same_but_upload o o' -> runInst tool o' w = runInst tool o w.
Proof.
  intros [Hout Hid]. destruct tool as [p|]; [ | reflexivity ].
  destruct (nth_error (Installs (pointee (step w))) p) as [[t|]|] eqn:H.
  - open_world w t. unfold_run H.
    match goal with
    | |- context [if negb ?b then _ else _] => destruct b
    end; cbv beta iota delta [negb].
    all: repeat (first [ rewrite (@nth_error_update_eq _ _ p _ _ H)
                  | rewrite Hout by reflexivity
                  | rewrite Hid
                  | match goal with
                    | |- context [match outcome ?oo ?h ?e with _ => _ end] =>
                        destruct (outcome oo h e)
                    end ]; cbv beta iota).
    all: reflexivity.
  - unfold runIntallationScripts, bind, load. rewrite H. reflexivity.
  - unfold runIntallationScripts, bind, load. rewrite H. reflexivity.
Qed.

(** ** The loop of [Run] *)

Lemma installed_length o n w w1 :
  installed ConstructCachePath FilepathParam Home TempDir o n w w1 ->
  List.length (Installs (pointee (step w1))) = List.length (Installs (pointee (step w))).
Proof.
  induction 1 as [|n w w1 w2 t _ IH Ht Hrun]; [reflexivity|].
  rewrite <- IH.
  destruct (runInst_frame n o w1 Ht) as (_ & _ & _ & [E|E] & _);
    rewrite Hrun in E; cbn [snd] in E; rewrite E; [reflexivity|apply length_update].
Qed.

(** One turn of the loop at a tool that is there. *)
Lemma range_step todo i t o w :
  nth_error (Installs (pointee (step w))) i = Some (Some t) ->
  range (S todo) i o w =
    match runInst (Some i) o w with
    | (Ok _, w1) => range todo (S i) o w1
    | (Err e, w1) => (Err e, w1)
    | (Panic r, w1) => (Panic r, w1)
    end.
Proof.
  intros H. cbn [range_Installs]. unfold bind at 1. unfold pointer_at at 1.
  rewrite H. unfold bind at 1. unfold deref, load at 1. rewrite H.
  unfold bind at 1. reflexivity.
Qed.

(** A nil entry: [tool.Name] panics before the tool is handed on. *)
Lemma range_nil todo i o w :
  nth_error (Installs (pointee (step w))) i = Some None ->
  range (S todo) i o w =
    (Panic "invalid memory address or nil pointer dereference", w).
Proof.
  intros H. cbn [range_Installs]. unfold bind, pointer_at, deref, panic.
  rewrite H. reflexivity.
Qed.

Lemma range_out todo i o w :
  nth_error (Installs (pointee (step w))) i = None ->
  range (S todo) i o w = (Panic "index out of range", w).
Proof.
  intros H. cbn [range_Installs]. unfold bind, pointer_at.
  rewrite H. reflexivity.
Qed.

(** Once the first [n] tools are installed, the loop goes on from entry
    [n]. *)
Lemma range_installed o n w w1 :
  installed ConstructCachePath FilepathParam Home TempDir o n w w1 ->
  forall todo, range (n + todo) 0 o w = range todo n o w1.
Proof.
  induction 1 as [|n w w1 w2 t _ IH Ht Hrun]; intros todo; [reflexivity|].
  replace (S n + todo) with (n + S todo) by lia.
  rewrite IH, (range_step _ _ _ _ Ht), Hrun. reflexivity.
Qed.

(** [Run] reads the entries through [s.spec]: it is the loop when the
    pointer is not nil, and the panic of a nil pointer when it is. *)
Lemma Run_range o w :
  run o w =
  match spec (step w) with
  | Some _ => range (List.length (Installs (pointee (step w)))) 0 o w
  | None => (Panic "invalid memory address or nil pointer dereference", w)
  end.
Proof. unfold Run, bind, deref_spec, pointee. destruct (spec (step w)); reflexivity. Qed.

Lemma pointee_nil (s : ToolInstallStep) :
  spec s = None -> Installs (pointee s) = [].
Proof. intros H. unfold pointee. now rewrite H. Qed.

(** The first error stops the loop: [Run] returns it, in the world the
    failed tool left. *)
Lemma Run_fails_at o n w w1 t e w2 :
  installed ConstructCachePath FilepathParam Home TempDir o n w w1 ->
  nth_error (Installs (pointee (step w1))) n = Some (Some t) ->
  runInst (Some n) o w1 = (Err e, w2) ->
  run o w = (Err e, w2).
Proof.
  intros Hn Ht Hrun.
  assert (Hlt : n < List.length (Installs (pointee (step w)))).
  { rewrite <- (installed_length Hn). apply nth_error_Some. congruence. }
  rewrite Run_range. destruct (spec (step w)) eqn:Hsp;
    [|rewrite (pointee_nil _ Hsp) in Hlt; cbn in Hlt; lia].
  replace (List.length (Installs (pointee (step w))))
    with (n + S (List.length (Installs (pointee (step w))) - S n)) by lia.
  rewrite (range_installed Hn), (range_step _ _ _ _ Ht), Hrun. reflexivity.
Qed.

(** When every tool is installed, [Run] returns nil. *)
Lemma Run_all_installed o w w' :
  spec (step w) <> None ->
  installed ConstructCachePath FilepathParam Home TempDir o
            (List.length (Installs (pointee (step w)))) w w' ->
  run o w = (Ok tt, w').
Proof.
  intros Hsp Hn. rewrite Run_range. destruct (spec (step w)); [|now destruct Hsp].
  replace (List.length (Installs (pointee (step w))))
    with (List.length (Installs (pointee (step w))) + 0) at 1 by lia.
  rewrite (range_installed Hn). reflexivity.
Qed.

(** ** What [Run] leaves of the spec *)

Lemma entry_frame_refl (e : option Tool) : entry_frame FilepathParam TempDir e e.
Proof. destruct e as [t|]; simpl; unfold tool_frame; auto 10. Qed.

Lemma frame_from_refl i sp :
  frame_from ConstructCachePath FilepathParam TempDir i sp sp.
Proof.
  unfold frame_from. repeat split; auto.
  intros j. unfold pointwise.
  destruct (nth_error (Installs sp) j); auto using entry_frame_refl.
Qed.

(** One tool, then the rest of the loop. *)
Lemma frame_from_step i t o w sp' :
  nth_error (Installs (pointee (step w))) i = Some (Some t) ->
  frame_from ConstructCachePath FilepathParam TempDir (S i)
             (pointee (step (snd (runInst (Some i) o w)))) sp' ->
  frame_from ConstructCachePath FilepathParam TempDir i (pointee (step w)) sp'.
Proof.
  intros Ht (Hlen & Hlt & Hpt & E1 & E2 & E3 & E4 & E5 & E6 & E7 & Hsub).
  destruct (runInst_frame i o w Ht) as (_ & _ & _ & Hins & Hs3).
  set (w1 := snd (runInst (Some i) o w)) in *.
  assert (Hneq : forall j, j <> i ->
            nth_error (Installs (pointee (step w1))) j =
            nth_error (Installs (pointee (step w))) j).
  { intros j Hj. destruct Hins as [->| ->]; [reflexivity|].
    apply nth_error_update_neq. congruence. }
  assert (Hi : entry_frame FilepathParam TempDir (Some t)
                 match nth_error (Installs (pointee (step w1))) i with
                 | Some e => e
                 | None => None
                 end).
  { destruct Hins as [->| ->].
    - rewrite Ht. apply entry_frame_refl.
    - rewrite (nth_error_update_eq _ _ _ Ht). simpl. unfold tool_frame. auto 10. }
  assert (Hi' : exists e, nth_error (Installs (pointee (step w1))) i = Some e).
  { destruct Hins as [->| ->]; [eauto|].
    rewrite (nth_error_update_eq _ _ _ Ht). eauto. }
  unfold frame_from. split; [|split; [|split]].
  - rewrite Hlen. destruct Hins as [->| ->]; [reflexivity|apply length_update].
  - intros j Hj. rewrite Hlt by lia. apply Hneq. lia.
  - intros j. unfold pointwise. destruct (Nat.eq_dec j i) as [->|Hj].
    + rewrite Hlt by lia. destruct Hi' as [e He]. rewrite He in Hi |- *.
      now rewrite Ht.
    + specialize (Hpt j). unfold pointwise in Hpt. now rewrite (Hneq j Hj) in Hpt.
  - assert (Hf : forall (proj : S3 -> string),
               (forall c sub, proj (set_Subfolder c sub) = proj c) ->
               proj (S3Storage (pointee (step w1))) = proj (S3Storage (pointee (step w)))).
    { intros proj Hp. destruct Hs3 as [->|[_ ->]]; auto. }
    cbv zeta in *.
    rewrite E1, E2, E3, E4, E5, E7, !Hf by (intros; reflexivity).
    repeat split.
    + rewrite E6. destruct Hs3 as [->|[_ ->]]; reflexivity.
    + destruct Hsub as [Hsub|(j & t' & Hj & Hn & Hd & Hsub)].
      * rewrite Hsub. destruct Hs3 as [->|[Hd ->]]; [now left|].
        right. exists i, t. repeat split; auto.
      * right. exists j, t'. repeat split; auto; [lia|].
        rewrite <- Hn. symmetry. apply Hneq. lia.
Qed.

Lemma range_frame todo :
  forall i o w,
    frame_from ConstructCachePath FilepathParam TempDir i
               (pointee (step w)) (pointee (step (snd (range todo i o w)))).
Proof.
  induction todo as [|todo IH]; intros i o w; [apply frame_from_refl|].
  destruct (nth_error (Installs (pointee (step w))) i) as [[t|]|] eqn:Ht.
  - rewrite (range_step _ _ _ _ Ht).
    apply (@frame_from_step i t o w _ Ht).
    destruct (runInst (Some i) o w) as [[[]|e|r] w1]; cbn [snd];
      [apply IH|apply frame_from_refl..].
  - rewrite (@range_nil todo i o w Ht). apply frame_from_refl.
  - rewrite (@range_out todo i o w Ht). apply frame_from_refl.
Qed.

(** ** The environments of the commands of [Run] *)

Lemma range_cmd_envs todo :
  forall i o w,
    exists new k,
      trace (snd (range todo i o w)) = trace w ++ new /\
      cmd_envs new =
        firstn k (expected_envs (Environs Home) (envs (step w))
                                (skipn i (Installs (pointee (step w))))) /\
      (fst (range todo i o w) = Ok tt -> List.length (cmd_envs new) = todo).
Proof.
  induction todo as [|todo IH]; intros i o w.
  { exists [], 0. cbn. rewrite app_nil_r. auto. }
  destruct (nth_error (Installs (pointee (step w))) i) as [[t|]|] eqn:Ht.
  - rewrite (range_step _ _ _ _ Ht).
    destruct (runInst_calls i o w Ht)
      as (net & k & uid & Htr & Hnet & _ & Hok & _ & _ & Hk).
    destruct (runInst_frame i o w Ht) as (Henv & _ & _ & Hins & _).
    assert (Hskip : skipn (S i) (Installs (pointee (step (snd (runInst (Some i) o w))))) =
                    skipn (S i) (Installs (pointee (step w)))).
    { destruct Hins as [->| ->]; [reflexivity|apply skipn_S_update]. }
    rewrite (skipn_nth_error _ _ Ht). cbn [expected_envs].
    set (env := envs (step w) ++ Environs Home (Envs t)) in *.
    set (new1 := net ++ firstn k _) in Htr.
    assert (Hcmd : cmd_envs new1 = if Nat.eqb k 5 then [env] else []).
    { apply cmd_envs_calls; [assumption|lia]. }
    destruct (runInst (Some i) o w) as [[[]|e|r] w1] eqn:Hrun; cbn [fst snd] in *.
    + destruct (IH (S i) o w1) as (new2 & k2 & Htr2 & Hcmd2 & Hok2).
      rewrite (Hok eq_refl) in Hcmd. cbn [Nat.eqb] in Hcmd.
      exists (new1 ++ new2), (S k2). repeat split.
      * rewrite Htr2, Htr. now rewrite app_assoc.
      * rewrite cmd_envs_app, Hcmd, Hcmd2, Henv, Hskip. reflexivity.
      * intros Hr. rewrite cmd_envs_app, Hcmd. cbn. now rewrite (Hok2 Hr).
    + exists new1, (if Nat.eqb k 5 then 1 else 0). repeat split; auto.
      * rewrite Hcmd. destruct (Nat.eqb k 5); reflexivity.
      * discriminate.
    + exists new1, (if Nat.eqb k 5 then 1 else 0). repeat split; auto.
      * rewrite Hcmd. destruct (Nat.eqb k 5); reflexivity.
      * discriminate.
  - exists [], 0. rewrite (@range_nil todo i o w Ht). cbn. rewrite app_nil_r.
    repeat split; auto; discriminate.
  - exists [], 0. rewrite (@range_out todo i o w Ht). cbn. rewrite app_nil_r.
    repeat split; auto; discriminate.
Qed.

(** ** The calls of the download block *)

(** With no download URL the commands are substituted with the empty
    path, whatever happens afterwards. *)
Lemma runInst_substitutes p t o w :
  nth_error (Installs (pointee (step w))) p = Some (Some t) ->
  Download t = EmptyString ->
  nth_error (Installs (pointee (step (snd (runInst (Some p) o w))))) p =
  Some (Some (set_Scripts t
                (map (fun command => strings.ReplaceAll command FilepathParam "")
                     (Scripts t)))).
Proof.
  intros H Hd. exec w t H.
  all: subst; try (cbn in Heqb; discriminate).
  all: cbv beta iota delta [snd step spec pointee option_map Installs];
       rewrite ?(nth_error_update_eq _ _ _ H); reflexivity.
Qed.

(** The keys of the cache store calls of a tool. *)
Lemma runInst_keys p t o w :
  nth_error (Installs (pointee (step w))) p = Some (Some t) ->
  Forall (fun e => forall k, key_of_call e = Some k ->
                             k = objectKeyOf ConstructCachePath t)
         (events_since w (snd (runInst (Some p) o w))).
Proof.
  intros H. exec w t H.
  all: cbv beta iota delta [trace]; rewrite <- ?app_assoc; cbn [app];
       rewrite events_since_app.
  all: repeat constructor; cbn [key_of_call]; try discriminate.
  all: intros k [= <-]; reflexivity.
Qed.

(** The cache fetch fails: one origin download, and after it one upload
    under the key of the fetch. *)
Lemma runInst_fallback p t o w e :
  nth_error (Installs (pointee (step w))) p = Some (Some t) ->
  Download t <> EmptyString ->
  let c := S3Storage (pointee (step w)) in
  let fetch := call_S3Download ConstructCachePath TempDir c t in
  let origin := call_HttpDownload TempDir t in
  outcome o (trace w) (call_NewClient c) = None ->
  outcome o (trace w ++ [call_NewClient c]) fetch = Some e ->
  let calls := events_since w (snd (runInst (Some p) o w)) in
  filter is_HttpDownload calls = [origin] /\
  filter is_S3Download calls = [fetch] /\
  match outcome o (trace w ++ [call_NewClient c; fetch]) origin with
  | None =>
      filter is_S3Upload calls = [call_S3Upload ConstructCachePath TempDir c t]
  | Some e' =>
      filter is_S3Upload calls = [] /\
      fst (runInst (Some p) o w) =
        Err ("download package " ++ Download t ++ " error: " ++ e')%string
  end.
Proof.
  intros H Hd c fetch origin Hnc Hfetch. subst c fetch origin.
  apply String.eqb_neq in Hd.
  open_world w t.
  cbv beta iota delta
    [call_NewClient call_S3Download call_HttpDownload call_S3Upload
     objectKeyOf tmpPathOf Endpoint Ak Sk Region Bucket Insecure Provider
     Name Version Download Envs Scripts] in *.
  rewrite Hd in *.
  unfold_run H. rewrite Hd. cbv beta iota delta [negb].
  rewrite Hnc. cbv beta iota. rewrite Hfetch. cbv beta iota.
  rewrite <- !app_assoc. cbn [app].
  cases_run H.
  all: cbv beta iota delta [trace]; rewrite <- ?app_assoc; cbn [app];
       rewrite ?events_since_app.
  all: repeat split; reflexivity.
Qed.
(* ===================================================================== *)
(** * The claims *)
(* ===================================================================== *)

(** C1 (as amended).  The environment of the [i]-th command [Run] starts
    is the environment the step was created with followed by the
    normalized assignments of the tools of entries [0] to [i], in order:
    the assignments of the tools installed before stay in the environment,
    and the secret environment is not added.  When [Run] returns nil every
    entry had its command. *)
Theorem C1_subprocess_environment (o : Oracle) (w : World) :
  let calls := events_since w (snd (run o w)) in
  (forall i env,
      nth_error (cmd_envs calls) i = Some env ->
      exists ts,
        firstn (S i) (Installs (pointee (step w))) = map Some ts /\
        env = envs (step w) ++ toolEnvs (Environs Home) ts) /\
  (fst (run o w) = Ok tt ->
   List.length (cmd_envs calls) = List.length (Installs (pointee (step w)))).
Proof.
  cbv zeta. rewrite Run_range.
  destruct (spec (step w)) eqn:Hsp;
    [|unfold events_since; cbn [fst snd]; rewrite skipn_all;
      split; [intros [|i] env Hi; discriminate|discriminate]].
  destruct (range_cmd_envs (List.length (Installs (pointee (step w)))) 0 o w)
    as (new & k & Htr & Hcmd & Hok).
  assert (E : events_since w
                (snd (range (List.length (Installs (pointee (step w)))) 0 o w)) = new).
  { unfold events_since. rewrite Htr. apply skipn_app_length. }
  rewrite E. split; [|exact Hok].
  intros i env Hi. rewrite Hcmd in Hi. cbn [skipn] in Hi.
  exact (expected_envs_nth _ _ _ _ _ Hi).
Qed.

(** C2 (as amended).  The tools before entry [n] are installed, the tool
    of entry [n] has a download URL, the client of the cache store is
    built, the cache fetch fails and the origin download fails with
    message [e2]: [Run] returns the error "download package <URL> error:
    <e2>", which holds the download URL and so its last segment, the
    origin file name. *)
Theorem C2_download_error_names_the_url
        (o : Oracle) (w w1 : World) (n : nat) (t : Tool) (e1 e2 : string) :
  installed ConstructCachePath FilepathParam Home TempDir o n w w1 ->
  nth_error (Installs (pointee (step w1))) n = Some (Some t) ->
  Download t <> EmptyString ->
  let c := S3Storage (pointee (step w1)) in
  let fetch := call_S3Download ConstructCachePath TempDir c t in
  let origin := call_HttpDownload TempDir t in
  outcome o (trace w1) (call_NewClient c) = None ->
  outcome o (trace w1 ++ [call_NewClient c]) fetch = Some e1 ->
  outcome o (trace w1 ++ [call_NewClient c; fetch]) origin = Some e2 ->
  let msg := ("download package " ++ Download t ++ " error: " ++ e2)%string in
  fst (run o w) = Err msg /\
  strings.Contains msg (Download t) = true /\
  strings.Contains msg (fileNameOf (Download t)) = true.
Proof.
  intros Hn Ht Hd c fetch origin Hnc Hfetch Horigin msg.
  destruct (runInst_fallback n o w1 Ht Hd Hnc Hfetch) as (_ & _ & Hcase).
  fold c fetch origin in Hcase. rewrite Horigin in Hcase.
  destruct Hcase as [_ Herr]. fold msg in Herr.
  split; [|split].
  - destruct (runInst (Some n) o w1) as [r w2] eqn:Hrun. cbn [fst] in Herr. subst r.
    now rewrite (Run_fails_at Hn Ht Hrun).
  - apply Contains_append.
  - destruct (fileNameOf_suffix (Download t)) as [pre E].
    unfold msg. rewrite E at 1. rewrite append_assoc.
    rewrite <- (append_assoc "download package " pre).
    apply Contains_append.
Qed.

(** C3.  The client of the cache store is built and the cache fetch of a
    tool fails: the origin download of the tool's URL is called once; when
    it succeeds the artifact is uploaded once, under the key of the fetch;
    and no answer to the upload changes what the installation of the tool
    returns. *)
Theorem C3_fallback_download_and_backfill
        (o : Oracle) (w : World) (p : nat) (t : Tool) (e : string) :
  nth_error (Installs (pointee (step w))) p = Some (Some t) ->
  Download t <> EmptyString ->
  let c := S3Storage (pointee (step w)) in
  let fetch := call_S3Download ConstructCachePath TempDir c t in
  let origin := call_HttpDownload TempDir t in
  let upload := call_S3Upload ConstructCachePath TempDir c t in
  outcome o (trace w) (call_NewClient c) = None ->
  outcome o (trace w ++ [call_NewClient c]) fetch = Some e ->
  let calls := events_since w (snd (runInst (Some p) o w)) in
  filter is_HttpDownload calls = [origin] /\
  filter is_S3Download calls = [fetch] /\
  (outcome o (trace w ++ [call_NewClient c; fetch]) origin = None ->
   filter is_S3Upload calls = [upload] /\
   key_of_call upload = key_of_call fetch) /\
  (forall o', same_but_upload o o' ->
              runInst (Some p) o' w = runInst (Some p) o w).
Proof.
  intros Ht Hd c fetch origin upload Hnc Hfetch calls.
  destruct (runInst_fallback p o w Ht Hd Hnc Hfetch) as (Hhttp & Hs3 & Hcase).
  fold c fetch origin calls in Hhttp, Hs3, Hcase.
  split; [exact Hhttp|split; [exact Hs3|split]].
  - intros Hok. rewrite Hok in Hcase. split; [exact Hcase|reflexivity].
  - intros o' Hsame. now apply runInst_ignores_upload.
Qed.

(** C4 (as amended).  Every call to the cache store for a tool carries
    the key [GetObjectPath fileName subfolder], where [subfolder] is
    "<config.ConstructCachePath>/<name>-v<version>" and [fileName] the last
    segment of the download URL: a function of these four strings alone.
    When the cache path after its leading separators, the name with the
    version and the file name are plain path elements, the key is
    "<cache path>/<name>-v<version>/<file name>" with the leading
    separators trimmed. *)
Theorem C4_cache_key (o : Oracle) (w : World) (p : nat) (t : Tool) :
  nth_error (Installs (pointee (step w))) p = Some (Some t) ->
  (forall e k,
      In e (events_since w (snd (runInst (Some p) o w))) ->
      key_of_call e = Some k ->
      k = GetObjectPath (fileNameOf (Download t))
                        (ConstructCachePath ++ "/" ++ Name t ++ "-v" ++ Version t)) /\
  (plain (strings.TrimLeft ConstructCachePath "/") = true ->
   strings.IndexByte (Name t) "/"%char = false ->
   strings.IndexByte (Version t) "/"%char = false ->
   plain (fileNameOf (Download t)) = true ->
   objectKeyOf ConstructCachePath t =
   strings.TrimLeft (ConstructCachePath ++ "/" ++ Name t ++ "-v" ++ Version t ++ "/" ++
                     fileNameOf (Download t)) "/").
Proof.
  intros Ht. split.
  - intros e k He Hk.
    pose proof (runInst_keys p o w Ht) as Hall.
    rewrite Forall_forall in Hall. exact (Hall e He k Hk).
  - intros Hr Hn Hv Hf. unfold objectKeyOf. now apply GetObjectPath_plain.
Qed.

(** C5 (as amended).  [Run] leaves the number of entries of the spec, its
    nil entries, the name, version, download URL and assignments of every
    tool and every field of the storage configuration but [Subfolder] as
    they were parsed, whether it returns nil or not.  The commands of a
    tool are the parsed ones or the substituted ones, and [Subfolder] is
    the parsed one or the cache folder of a tool with a download URL. *)
Theorem C5_run_frame (o : Oracle) (w : World) :
  spec_frame ConstructCachePath FilepathParam TempDir
             (pointee (step w)) (pointee (step (snd (run o w)))).
Proof.
  assert (Hf : frame_from ConstructCachePath FilepathParam TempDir 0
                 (pointee (step w)) (pointee (step (snd (run o w))))).
  { rewrite Run_range. destruct (spec (step w));
      [apply range_frame|apply frame_from_refl]. }
  destruct Hf as (_ & _ & Hpt & E1 & E2 & E3 & E4 & E5 & E6 & E7 & Hsub).
  split; [now apply pointwise_Forall2|].
  unfold storage_frame. repeat (split; [assumption|]).
  destruct Hsub as [Hsub|(j & t & _ & Hj & Hd & Hsub)]; [now left|].
  right. exists t. repeat split; auto. exact (nth_error_In _ _ Hj).
Qed.

(** C6.  [Environs] keeps, in order, the entries that split into exactly
    two parts on "=" (with "$HOME" replaced by the home directory) and
    drops the others; it cannot fail.  Of "A=1", "B", "=2" and "C=3=3" it
    keeps "A=1" and "=2". *)
Theorem C6_Environs_keeps_two_part_entries (l : list string) :
  Environs Home l =
    map (fun val => strings.Replace val "$HOME" Home (-1))
        (filter (fun val => Nat.eqb (List.length (strings.Split val "="%char)) 2) l) /\
  Environs Home ["A=1"; "B"; "=2"; "C=3=3"] = ["A=1"; "=2"].
Proof.
  split.
  - induction l as [|val l IH]; [reflexivity|]. cbn [Environs filter].
    destruct (String.eqb_spec val "") as [->|_]; [exact IH|].
    destruct (Nat.eqb (List.length (strings.Split val "="%char)) 2);
      cbn [negb map]; now rewrite IH.
  - assert (E : forall s, strings.Contains s "$HOME" = false ->
                          strings.Replace s "$HOME" Home (-1) = s)
      by (intros s; apply ReplaceAll_absent).
    cbv - [strings.Replace]. now rewrite !E.
Qed.

(** C7.  A tool without a download URL: its installation calls neither
    the cache store nor the origin, its commands become the parsed ones
    with the placeholder replaced by the empty string, and these are the
    commands of the script that is written.  Each new command is the
    parsed one with every occurrence of the placeholder taken out
    ([erased]); were the placeholder the empty string, the commands
    would stay as they are. *)
Theorem C7_no_download_no_network_call
        (o : Oracle) (w : World) (p : nat) (t : Tool) :
  nth_error (Installs (pointee (step w))) p = Some (Some t) ->
  Download t = EmptyString ->
  let w' := snd (runInst (Some p) o w) in
  let commands :=
    map (fun command => strings.ReplaceAll command FilepathParam "") (Scripts t) in
  filter is_network (events_since w w') = [] /\
  nth_error (Installs (pointee (step w'))) p = Some (Some (set_Scripts t commands)) /\
  (FilepathParam <> EmptyString ->
   Forall2 (erased FilepathParam) (Scripts t) commands) /\
  (FilepathParam = EmptyString -> commands = Scripts t) /\
  exists uid k,
    2 <= k /\
    events_since w w' =
      firstn k (script_calls (scriptFile TempDir uid)
                             (strings.Join ("set -ex" :: commands) newline)
                             (workspace (step w))
                             (envs (step w) ++ Environs Home (Envs t))).
Proof.
  intros Ht Hd w' commands.
  destruct (runInst_calls p o w Ht)
    as (net & k & uid & Htr & _ & Hnet & _ & _ & Hk2 & Hk).
  rewrite (Hnet Hd) in Htr. cbn [app] in Htr.
  assert (E : events_since w w' =
              firstn k (script_calls (scriptFile TempDir uid)
                          (strings.Join ("set -ex" :: commands) newline)
                          (workspace (step w))
                          (envs (step w) ++ Environs Home (Envs t)))).
  { unfold events_since, w'. rewrite Htr, skipn_app_length.
    unfold scriptBody, substituted, tmpPathOf. now rewrite Hd. }
  split; [|split; [|split; [|split]]].
  - rewrite E. destruct Hk as [->|Hk]; [reflexivity|].
    do 6 (destruct k as [|k]; [reflexivity|]). lia.
  - now apply runInst_substitutes.
  - intros Hne. now apply map_ReplaceAll_erased.
  - intros Hempty. unfold commands. rewrite Hempty. apply map_ReplaceAll_empty.
  - exists uid, k. split; [now apply Hk2|exact E].
Qed.

(** C8.  A tool whose only command is "echo hi": the calls of its
    installation are calls to the network, then [uuid.NewUUID], then
    [ioutil.WriteFile] with the two lines "set -ex" and "echo hi" (the
    placeholder replaced) joined by a newline and the permission bits
    0700, then the two pipes, then the command "/bin/bash <file>", up to
    the first call that fails.  No line comes from a proxy toggle.  The
    script is not written only when the download fails. *)
Theorem C8_script_body_and_mode
        (o : Oracle) (w : World) (p : nat) (t : Tool) :
  nth_error (Installs (pointee (step w))) p = Some (Some t) ->
  Scripts t = ["echo hi"] ->
  let r := fst (runInst (Some p) o w) in
  let w' := snd (runInst (Some p) o w) in
  let line := strings.ReplaceAll "echo hi" FilepathParam (tmpPathOf TempDir t) in
  exists net k uid,
    events_since w w' =
      net ++
      firstn k [EvNewUUID;
                EvWriteFile (scriptFile TempDir uid)
                            ("set -ex" ++ newline ++ line) (7 * 64);
                EvStdoutPipe; EvStderrPipe;
                EvCmdRun "/bin/bash" [scriptFile TempDir uid] (workspace (step w))
                         (envs (step w) ++ Environs Home (Envs t))] /\
    forallb is_network net = true /\
    (k = 0 \/ 2 <= k <= 5) /\
    (k = 0 -> Download t <> EmptyString /\ exists e, r = Err e) /\
    (r = Ok tt -> k = 5) /\
    (strings.Contains "echo hi" FilepathParam = false -> line = "echo hi").
Proof.
  intros Ht Hs r w' line.
  destruct (runInst_calls p o w Ht)
    as (net & k & uid & Htr & Hnet & _ & Hok & Herr & Hk2 & Hk).
  exists net, k, uid.
  split; [|split; [exact Hnet|split; [exact Hk|split; [|split; [exact Hok|]]]]].
  - unfold events_since, w'. rewrite Htr, skipn_app_length.
    unfold scriptBody, substituted. rewrite Hs. reflexivity.
  - intros E. split; [|now apply Herr].
    intros Hd. specialize (Hk2 Hd). lia.
  - intros Habs. now apply ReplaceAll_absent.
Qed.

(** C9.  [Run] installs the tools in order and stops at the first error.
    When the tools before entry [n] are installed and the installation of
    the tool of entry [n] returns an error, [Run] returns that error in
    the world this tool left: no later tool is called and nothing of the
    earlier ones is undone.  When every entry is installed, [Run] returns
    nil; it is only with a nil spec, which has no entry, that it panics
    instead. *)
Theorem C9_fail_fast (o : Oracle) (w : World) :
  (forall n w1 t e w2,
      installed ConstructCachePath FilepathParam Home TempDir o n w w1 ->
      nth_error (Installs (pointee (step w1))) n = Some (Some t) ->
      runInst (Some n) o w1 = (Err e, w2) ->
      run o w = (Err e, w2)) /\
  (forall w',
      installed ConstructCachePath FilepathParam Home TempDir o
                (List.length (Installs (pointee (step w)))) w w' ->
      run o w =
      match spec (step w) with
      | Some _ => (Ok tt, w')
      | None => (Panic "invalid memory address or nil pointer dereference", w)
      end).
Proof.
  split.
  - intros n w1 t e w2. apply Run_fails_at.
  - intros w' Hn. destruct (spec (step w)) eqn:Hsp.
    + apply Run_all_installed; [rewrite Hsp; discriminate|exact Hn].
    + rewrite Run_range, Hsp. reflexivity.
Qed.

(* ===================================================================== *)
(** * More properties of the step *)
(* ===================================================================== *)

(** A tool that is there never makes [runIntallationScripts] panic. *)
Lemma runInst_no_panic p t o w :
  nth_error (Installs (pointee (step w))) p = Some (Some t) ->
  forall r, fst (runInst (Some p) o w) <> Panic r.
Proof. intros H r. exec w t H; discriminate. Qed.

Lemma Forall_update A (P : A -> Prop) (l : list A) i a :
  Forall P l -> P a -> Forall P (update l i a).
Proof.
  intros Hl Ha. revert i. induction Hl as [|x l Hx Hl IH]; intros [|i]; simpl;
    constructor; auto.
Qed.

Lemma range_no_panic todo :
  forall i o w,
    i + todo <= List.length (Installs (pointee (step w))) ->
    Forall (fun e => e <> None) (Installs (pointee (step w))) ->
    forall r, fst (range todo i o w) <> Panic r.
Proof.
  induction todo as [|todo IH]; intros i o w Hlen Hall r; [discriminate|].
  destruct (nth_error (Installs (pointee (step w))) i) as [[t|]|] eqn:Ht.
  - rewrite (@range_step todo i t o w Ht).
    pose proof (@runInst_no_panic i t o w Ht) as Hnp.
    destruct (@runInst_frame i t o w Ht) as (_ & _ & _ & Hins & _).
    destruct (runInst (Some i) o w) as [[[]|e|r'] w1]; cbn [fst snd] in *.
    + apply IH.
      * destruct Hins as [->| ->]; [lia|rewrite length_update; lia].
      * destruct Hins as [->| ->]; [exact Hall|].
        apply Forall_update; [exact Hall|discriminate].
    + discriminate.
    + now destruct (Hnp r').
  - rewrite Forall_forall in Hall.
    now destruct (Hall None (nth_error_In _ _ Ht)).
  - apply nth_error_None in Ht. lia.
Qed.

(** X7.  [Run] panics only at a nil pointer: when the spec of the step
    is not nil and no entry of it is nil, [Run] returns nil or an error,
    whatever the collaborators answer. *)
Theorem Run_no_panic (o : Oracle) (w : World) :
  spec (step w) <> None ->
  Forall (fun e => e <> None) (Installs (pointee (step w))) ->
  fst (run o w) = Ok tt \/ exists e, fst (run o w) = Err e.
Proof.
  intros Hsp Hall. rewrite Run_range. destruct (spec (step w)); [|now destruct Hsp].
  pose proof (@range_no_panic (List.length (Installs (pointee (step w)))) 0 o w
                (le_n _) Hall) as Hnp.
  destruct (range (List.length (Installs (pointee (step w)))) 0 o w) as [[[]|e|r] w'];
    cbn [fst] in *; [now left|right; now exists e|now destruct (Hnp r)].
Qed.

Lemma range_env_frame todo :
  forall i o w,
    secretEnvs (step (snd (range todo i o w))) = secretEnvs (step w) /\
    workspace (step (snd (range todo i o w))) = workspace (step w) /\
    exists added, envs (step (snd (range todo i o w))) = envs (step w) ++ added.
Proof.
  induction todo as [|todo IH]; intros i o w.
  { repeat split. exists []. cbn. now rewrite app_nil_r. }
  destruct (nth_error (Installs (pointee (step w))) i) as [[t|]|] eqn:Ht.
  - rewrite (@range_step todo i t o w Ht).
    destruct (@runInst_frame i t o w Ht) as (He & Hs & Hw & _).
    destruct (runInst (Some i) o w) as [[[]|e|r] w1]; cbn [fst snd] in *.
    + destruct (IH (S i) o w1) as (Hs' & Hw' & added & He').
      rewrite Hs', Hw', He', He, Hs, Hw. repeat split.
      exists (Environs Home (Envs t) ++ added). now rewrite app_assoc.
    + repeat split; auto. now exists (Environs Home (Envs t)).
    + repeat split; auto. now exists (Environs Home (Envs t)).
  - rewrite (@range_nil todo i o w Ht). repeat split.
    exists []. cbn. now rewrite app_nil_r.
  - rewrite (@range_out todo i o w Ht). repeat split.
    exists []. cbn. now rewrite app_nil_r.
Qed.

(** X17.  A step whose spec is nil: [Run] panics at once, whatever the
    collaborators would answer; no call is made and the step is left as
    it is. *)
Theorem Run_nil_spec (o : Oracle) (w : World) :
  spec (step w) = None ->
  run o w = (Panic "invalid memory address or nil pointer dereference", w) /\
  events_since w (snd (run o w)) = [].
Proof.
  intros Hsp. rewrite Run_range, Hsp. split; [reflexivity|].
  unfold events_since. cbn. now rewrite skipn_all.
Qed.

(** X8.  [Run] never changes the secret environment or the workspace of
    the step, and only appends to its environment: the entries it was
    created with stay first, in order, whether [Run] returns nil, an error
    or panics. *)
Theorem Run_keeps_environment (o : Oracle) (w : World) :
  secretEnvs (step (snd (run o w))) = secretEnvs (step w) /\
  workspace (step (snd (run o w))) = workspace (step w) /\
  exists added, envs (step (snd (run o w))) = envs (step w) ++ added.
Proof.
  rewrite Run_range. destruct (spec (step w)); [apply range_env_frame|].
  repeat split. exists []. cbn. now rewrite app_nil_r.
Qed.

(** ** The calls of the download block, again *)

(** X9.  A cache hit: when the client of the cache store is built and the
    fetch succeeds, the origin is not called and nothing is uploaded. *)
Theorem cache_hit_skips_origin (o : Oracle) (w : World) (p : nat) (t : Tool) :
  nth_error (Installs (pointee (step w))) p = Some (Some t) ->
  Download t <> EmptyString ->
  let c := S3Storage (pointee (step w)) in
  let fetch := call_S3Download ConstructCachePath TempDir c t in
  outcome o (trace w) (call_NewClient c) = None ->
  outcome o (trace w ++ [call_NewClient c]) fetch = None ->
  filter is_network (events_since w (snd (runInst (Some p) o w))) =
  [call_NewClient c; fetch].
Proof.
  intros H Hd c fetch Hnc Hfetch. subst c fetch.
  apply String.eqb_neq in Hd.
  open_world w t.
  cbv beta iota delta
    [call_NewClient call_S3Download call_HttpDownload call_S3Upload
     objectKeyOf tmpPathOf Endpoint Ak Sk Region Bucket Insecure Provider
     Name Version Download Envs Scripts] in *.
  rewrite Hd in *.
  unfold_run H. rewrite Hd. cbv beta iota delta [negb].
  rewrite Hnc. cbv beta iota. rewrite Hfetch. cbv beta iota.
  rewrite <- ?app_assoc. cbn [app].
  cases_run H.
  all: cbv beta iota delta [trace]; rewrite <- ?app_assoc; cbn [app];
       rewrite ?events_since_app.
  all: reflexivity.
Qed.

(** X10.  No client of the cache store: the artifact is downloaded from
    the origin, once, and neither fetched from the cache nor uploaded to
    it; when that download fails its error is returned as it is and the
    commands of the tool stay as they were parsed. *)
Theorem no_client_no_backfill
        (o : Oracle) (w : World) (p : nat) (t : Tool) (e0 : string) :
  nth_error (Installs (pointee (step w))) p = Some (Some t) ->
  Download t <> EmptyString ->
  let c := S3Storage (pointee (step w)) in
  let origin := call_HttpDownload TempDir t in
  outcome o (trace w) (call_NewClient c) = Some e0 ->
  let w' := snd (runInst (Some p) o w) in
  filter is_network (events_since w w') = [call_NewClient c; origin] /\
  forall e,
    outcome o (trace w ++ [call_NewClient c]) origin = Some e ->
    fst (runInst (Some p) o w) = Err e /\
    events_since w w' = [call_NewClient c; origin] /\
    nth_error (Installs (pointee (step w'))) p = Some (Some t).
Proof.
  intros H Hd c origin Hnc w'. subst c origin w'.
  apply String.eqb_neq in Hd.
  open_world w t.
  cbv beta iota delta
    [call_NewClient call_S3Download call_HttpDownload call_S3Upload
     objectKeyOf tmpPathOf Endpoint Ak Sk Region Bucket Insecure Provider
     Name Version Download Envs Scripts] in *.
  rewrite Hd in *.
  unfold_run H. rewrite Hd. cbv beta iota delta [negb].
  rewrite Hnc. cbv beta iota.
  rewrite <- ?app_assoc. cbn [app].
  cases_run H.
  all: cbv beta iota delta [trace step spec pointee option_map Installs];
       rewrite <- ?app_assoc; cbn [app]; rewrite ?events_since_app.
  all: split; [reflexivity|]; intros e He.
  all: try congruence.
  all: injection He as <-; repeat split; try reflexivity; exact H.
Qed.

(** X11.  The script cannot be written (a tool without a download URL):
    the error is "write script file error: <e>", the pipes are not opened
    and no command is run. *)
Theorem script_write_failure
        (o : Oracle) (w : World) (p : nat) (t : Tool) (e : string) :
  nth_error (Installs (pointee (step w))) p = Some (Some t) ->
  Download t = EmptyString ->
  let file := scriptFile TempDir (uuid_ID o (trace w) mod 2 ^ 32)%N in
  let write := EvWriteFile file (scriptBody FilepathParam TempDir t) perm_0700 in
  outcome o (trace w ++ [EvNewUUID]) write = Some e ->
  fst (runInst (Some p) o w) = Err ("write script file error: " ++ e)%string /\
  events_since w (snd (runInst (Some p) o w)) = [EvNewUUID; write].
Proof.
  intros H Hd file write Hw. subst file write.
  open_world w t. subst.
  cbv beta iota delta
    [scriptFile scriptBody substituted tmpPathOf
     Name Version Download Envs Scripts] in Hw.
  cbn [String.eqb] in Hw.
  unfold_run H. cbn [String.eqb negb]. cbv beta iota.
  change (["set -ex"] ++ ?l) with ("set -ex" :: l).
  cbn [app]. rewrite ?(@nth_error_update_eq _ _ _ _ _ H). cbv beta iota.
  cbn [app]. rewrite Hw. cbv beta iota.
  rewrite <- ?app_assoc. cbn [app]. rewrite events_since_app.
  split; reflexivity.
Qed.

(** ** What [Run] calls *)

Lemma events_since_trans (w w1 w' : World) (a b : list Event) :
  trace w1 = trace w ++ a -> trace w' = trace w1 ++ b ->
  events_since w w' = events_since w w1 ++ events_since w1 w'.
Proof.
  intros Ha Hb. unfold events_since. rewrite Hb, skipn_app_length.
  rewrite Ha at 1. rewrite <- app_assoc, skipn_app_length.
  rewrite Ha. now rewrite skipn_app_length.
Qed.

Lemma range_trace_grows todo i o w :
  exists new, trace (snd (range todo i o w)) = trace w ++ new.
Proof.
  destruct (@range_cmd_envs todo i o w) as (new & _ & H & _). now exists new.
Qed.

Lemma runs_written_app dir (a b : list Event) :
  forall written,
    runs_written dir written a = true ->
    (forall written', runs_written dir written' b = true) ->
    runs_written dir written (a ++ b) = true.
Proof.
  induction a as [|e a IH]; intros written Ha Hb; [apply Hb|].
  destruct e; cbn [app runs_written] in *; auto.
  apply andb_prop in Ha as [Ha Hrest]. rewrite Ha. cbn [andb]. auto.
Qed.

Lemma runs_written_network dir (net rest : list Event) :
  forallb is_network net = true ->
  forall written,
    runs_written dir written (net ++ rest) = runs_written dir written rest.
Proof.
  induction net as [|e net IH]; intros H written; [reflexivity|].
  cbn [forallb] in H. apply andb_prop in H as [He Hn].
  destruct e; try discriminate; cbn [app runs_written]; auto.
Qed.

(** The commands of one tool. *)
Lemma runInst_runs_written p t o w :
  nth_error (Installs (pointee (step w))) p = Some (Some t) ->
  forall written,
    runs_written (workspace (step w)) written
                 (events_since w (snd (runInst (Some p) o w))) = true.
Proof.
  intros Ht written.
  destruct (@runInst_calls p t o w Ht) as (net & k & uid & Htr & Hnet & _ & _ & _ & _ & Hk).
  unfold events_since. rewrite Htr, skipn_app_length, runs_written_network by exact Hnet.
  unfold script_calls.
  destruct Hk as [->|Hk]; [reflexivity|].
  do 6 (destruct k as [|k];
        [cbn [firstn runs_written]; rewrite ?N.eqb_refl;
         cbn [existsb]; rewrite ?String.eqb_refl; reflexivity|]).
  lia.
Qed.

Lemma range_runs_written todo :
  forall i o w written,
    runs_written (workspace (step w)) written
                 (events_since w (snd (range todo i o w))) = true.
Proof.
  induction todo as [|todo IH]; intros i o w written.
  { unfold events_since. cbn. now rewrite skipn_all. }
  destruct (nth_error (Installs (pointee (step w))) i) as [[t|]|] eqn:Ht.
  - rewrite (@range_step todo i t o w Ht).
    pose proof (@runInst_runs_written i t o w Ht) as H1.
    destruct (@runInst_calls i t o w Ht) as (net & k & uid & Htr & _).
    destruct (@runInst_frame i t o w Ht) as (_ & _ & Hw & _).
    destruct (runInst (Some i) o w) as [[[]|e|r] w1]; cbn [fst snd] in *;
      [|apply H1..].
    destruct (range_trace_grows todo (S i) o w1) as [new Hnew].
    rewrite (events_since_trans w w1 _ _ _ Htr Hnew).
    apply runs_written_app; [apply H1|].
    intros written'. rewrite <- Hw. apply IH.
  - rewrite (@range_nil todo i o w Ht). unfold events_since. cbn. now rewrite skipn_all.
  - rewrite (@range_out todo i o w Ht). unfold events_since. cbn. now rewrite skipn_all.
Qed.

(** X12.  Every command [Run] starts is "/bin/bash <file>" in the
    workspace of the step, for a file that was written just before, in
    the same run, with the permission bits 0700. *)
Theorem Run_runs_written_scripts (o : Oracle) (w : World) :
  runs_written (workspace (step w)) [] (events_since w (snd (run o w))) = true.
Proof.
  rewrite Run_range. destruct (spec (step w)); [apply range_runs_written|].
  unfold events_since. cbn. now rewrite skipn_all.
Qed.

Lemma range_offline todo :
  forall i o w,
    (forall j t, nth_error (Installs (pointee (step w))) j = Some (Some t) ->
                 Download t = EmptyString) ->
    filter is_network (events_since w (snd (range todo i o w))) = [].
Proof.
  induction todo as [|todo IH]; intros i o w Hall.
  { unfold events_since. cbn. now rewrite skipn_all. }
  destruct (nth_error (Installs (pointee (step w))) i) as [[t|]|] eqn:Ht.
  - rewrite (@range_step todo i t o w Ht).
    assert (H1 : filter is_network (events_since w (snd (runInst (Some i) o w))) = []).
    { destruct (@runInst_calls i t o w Ht)
        as (net & k & uid & Htr & _ & Hnet & _ & _ & _ & Hk).
      unfold events_since. rewrite Htr, skipn_app_length, (Hnet (Hall i t Ht)).
      cbn [app]. destruct Hk as [->|Hk]; [reflexivity|].
      do 6 (destruct k as [|k]; [reflexivity|]). lia. }
    destruct (@runInst_calls i t o w Ht) as (net & k & uid & Htr & _).
    destruct (@runInst_frame i t o w Ht) as (_ & _ & _ & Hins & _).
    destruct (runInst (Some i) o w) as [[[]|e|r] w1]; cbn [fst snd] in *;
      [|exact H1..].
    destruct (range_trace_grows todo (S i) o w1) as [new Hnew].
    rewrite (events_since_trans w w1 _ _ _ Htr Hnew), filter_app, H1.
    apply IH. intros j t' Hj.
    destruct Hins as [E|E]; rewrite E in Hj; [now apply (Hall j)|].
    destruct (Nat.eq_dec i j) as [<-|Hij].
    + rewrite (@nth_error_update_eq _ _ _ _ _ Ht) in Hj.
      injection Hj as <-. cbn [set_Scripts Download]. exact (Hall i t Ht).
    + rewrite nth_error_update_neq in Hj by exact Hij. now apply (Hall j).
  - rewrite (@range_nil todo i o w Ht). unfold events_since. cbn. now rewrite skipn_all.
  - rewrite (@range_out todo i o w Ht). unfold events_since. cbn. now rewrite skipn_all.
Qed.

(** X13.  When no tool of the spec has a download URL, [Run] calls
    neither the cache store nor the origin. *)
Theorem Run_offline (o : Oracle) (w : World) :
  (forall t, In (Some t) (Installs (pointee (step w))) -> Download t = EmptyString) ->
  filter is_network (events_since w (snd (run o w))) = [].
Proof.
  intros Hall. rewrite Run_range.
  destruct (spec (step w));
    [|unfold events_since; cbn; now rewrite skipn_all].
  apply range_offline.
  intros j t Hj. apply Hall. exact (nth_error_In _ _ Hj).
Qed.

End Properties.

(* ===================================================================== *)
(** * The claims at sample inputs *)
(* ===================================================================== *)

Example Split_env : strings.Split "C=3=3" "="%char = ["C"; "3"; "3"].
Proof. vm_compute. reflexivity. Qed.

Example Split_empty : strings.Split "" "="%char = [""].
Proof. vm_compute. reflexivity. Qed.

Example Replace_home :
  strings.Replace "PATH=$HOME/bin:$HOME/go" "$HOME" "/root" (-1) = "PATH=/root/bin:/root/go".
Proof. vm_compute. reflexivity. Qed.

Example Replace_overlap : strings.ReplaceAll "aaa" "aa" "b" = "ba".
Proof. vm_compute. reflexivity. Qed.

Example Clean_dots : filepath.Clean "a//b/./c/../../d/" = "a/d".
Proof. vm_compute. reflexivity. Qed.

Example Clean_up : filepath.Clean "../a/../../b" = "../../b".
Proof. vm_compute. reflexivity. Qed.

Example Clean_root : filepath.Clean "/../a/.." = "/".
Proof. vm_compute. reflexivity. Qed.

Example Join_skip : filepath.Join [""; "/tmp"; ""; "x.sh"] = "/tmp/x.sh".
Proof. vm_compute. reflexivity. Qed.

Example fmt_d : fmt.d 4096 = "4096" /\ fmt.d 0 = "0".
Proof. vm_compute. split; reflexivity. Qed.

(** Two tools, every call succeeds: the calls of [Run]. *)
Example Run_two_tools :
  trace (snd (sample_Run all_ok (start (step_of [Some tgz_tool; Some go_tool] [] [])))) =
  [EvS3NewClient "" "" "" "" false "";
   EvS3Download "" "cache/node-v18.0.0/tool.tgz" "/tmp/tool.tgz";
   EvNewUUID;
   EvWriteFile "/tmp/install_script_7.sh"
               ("set -ex" ++ newline ++ "tar xf /tmp/tool.tgz") 448;
   EvStdoutPipe; EvStderrPipe;
   EvCmdRun "/bin/bash" ["/tmp/install_script_7.sh"] "/workspace" ["A=1"];
   EvNewUUID;
   EvWriteFile "/tmp/install_script_7.sh" ("set -ex" ++ newline ++ "echo hi") 448;
   EvStdoutPipe; EvStderrPipe;
   EvCmdRun "/bin/bash" ["/tmp/install_script_7.sh"] "/workspace" ["A=1"; "B=2"]].
Proof. vm_compute. reflexivity. Qed.

(** C1, counterexample.  Two tools with the assignments "A=1" and "B=2",
    the base environment "LANG=C" and the secret environment "TOKEN=x":
    the command of the second tool gets "LANG=C", "A=1", "B=2", not
    "LANG=C", "TOKEN=x", "B=2". *)
Lemma C1_counterexample :
  let w := start (step_of [Some tgz_tool; Some go_tool] ["LANG=C"] ["TOKEN=x"]) in
  let calls := events_since w (snd (sample_Run all_ok w)) in
  cmd_envs calls = [["LANG=C"; "A=1"]; ["LANG=C"; "A=1"; "B=2"]] /\
  nth_error (cmd_envs calls) 1 <>
  Some (envs (step w) ++ secretEnvs (step w) ++ Environs sample_home (Envs go_tool)).
Proof. vm_compute. split; [reflexivity|discriminate]. Qed.

(** C1, at the same sample: the environment of the second command. *)
Lemma C1_witness :
  exists ts,
    [Some tgz_tool; Some go_tool] = map Some ts /\
    ["LANG=C"; "A=1"; "B=2"] = ["LANG=C"] ++ toolEnvs (Environs sample_home) ts.
Proof.
  exact (proj1 (C1_subprocess_environment sample_cache sample_placeholder sample_home
                  sample_tmp all_ok
                  (start (step_of [Some tgz_tool; Some go_tool] ["LANG=C"] ["TOKEN=x"])))
               1 ["LANG=C"; "A=1"; "B=2"] eq_refl).
Defined.

(** C2, counterexample.  The cache fetch and the origin download of
    "http://example/tool.tgz" fail for the tool "node": the error of the
    step does not hold the name of the tool.  When it is the client of the
    cache store that cannot be built, the error of the origin download is
    returned as it is. *)
Lemma C2_counterexample :
  let w := start (step_of [Some tgz_tool] [] []) in
  let unreachable := failing (fun e => is_S3Download e || is_HttpDownload e)
                             "connection refused" in
  let no_client := failing (fun e => is_S3NewClient e || is_HttpDownload e)
                           "connection refused" in
  fst (sample_Run unreachable w) =
    Err "download package http://example/tool.tgz error: connection refused" /\
  strings.Contains "download package http://example/tool.tgz error: connection refused"
                   (Name tgz_tool) = false /\
  fst (sample_Run no_client w) = Err "connection refused".
Proof. vm_compute. repeat split; reflexivity. Qed.

(** C2, at a sample: a first tool is installed, then the cache fetch and
    the origin download of the second fail. *)
Lemma C2_witness :
  let o := failing (fun e => is_S3Download e || is_HttpDownload e) "connection refused" in
  let w := start (step_of [Some go_tool; Some tgz_tool] [] []) in
  let msg := "download package http://example/tool.tgz error: connection refused" in
  fst (sample_Run o w) = Err msg /\
  strings.Contains msg "http://example/tool.tgz" = true /\
  strings.Contains msg "tool.tgz" = true.
Proof.
  cbv zeta.
  set (o := failing (fun e => is_S3Download e || is_HttpDownload e) "connection refused").
  set (w := start (step_of [Some go_tool; Some tgz_tool] [] [])).
  assert (H1 : installed sample_cache sample_placeholder sample_home sample_tmp
                         o 1 w (snd (sample_install (Some 0) o w))).
  { eapply installed_S; [apply installed_O|reflexivity|reflexivity]. }
  refine (C2_download_error_names_the_url (e1 := "connection refused")
            (e2 := "connection refused") H1 (t := tgz_tool) _ _ _ _ _).
  - reflexivity.
  - discriminate.
  - reflexivity.
  - reflexivity.
  - reflexivity.
Defined.

(** C3, at a sample: the cache fetch fails, the origin download succeeds
    and the upload fails; the tool is installed. *)
Lemma C3_witness :
  let o := failing (fun e => is_S3Download e || is_S3Upload e) "no such key" in
  let w := start (step_of [Some tgz_tool] [] []) in
  let calls := events_since w (snd (sample_install (Some 0) o w)) in
  (filter is_HttpDownload calls = [EvHttpDownload "http://example/tool.tgz" "/tmp/tool.tgz"] /\
   filter is_S3Upload calls =
     [EvS3Upload "" "/tmp/tool.tgz" "cache/node-v18.0.0/tool.tgz"] /\
   filter is_S3Download calls =
     [EvS3Download "" "cache/node-v18.0.0/tool.tgz" "/tmp/tool.tgz"]) /\
  fst (sample_install (Some 0) o w) = Ok tt.
Proof.
  cbv zeta.
  set (o := failing (fun e => is_S3Download e || is_S3Upload e) "no such key").
  set (w := start (step_of [Some tgz_tool] [] [])).
  assert (Hd : Download tgz_tool <> EmptyString) by discriminate.
  pose proof (C3_fallback_download_and_backfill sample_cache sample_placeholder
                sample_home sample_tmp o w 0 (t := tgz_tool) (e := "no such key")
                eq_refl Hd eq_refl eq_refl) as (Hhttp & Hs3 & Hup & _).
  split; [|vm_compute; reflexivity].
  split; [exact Hhttp|]. split; [exact (proj1 (Hup eq_refl))|exact Hs3].
Defined.

(** C4, counterexample.  The download URL ends in a separator: its last
    segment is empty and the key is "cache/node-v18.0.0", without the
    separator that would come before the file name. *)
Lemma C4_counterexample :
  let w := start (step_of [Some node_dir_tool] [] []) in
  fileNameOf (Download node_dir_tool) = "" /\
  filter is_S3Download (events_since w (snd (sample_Run all_ok w))) =
    [EvS3Download "" "cache/node-v18.0.0" "/tmp"] /\
  "cache/node-v18.0.0" <>
  strings.TrimLeft ("cache" ++ "/" ++ "node" ++ "-v" ++ "18.0.0" ++ "/" ++
                    fileNameOf (Download node_dir_tool)) "/".
Proof. vm_compute. repeat split; try reflexivity. discriminate. Qed.

(** C4, at the sample of the claim: cache path "cache", tool "node",
    version "18.0.0", download URL ending in "node.tar.gz". *)
Lemma C4_witness :
  objectKeyOf sample_cache node_tool = "cache/node-v18.0.0/node.tar.gz".
Proof.
  exact (proj2 (C4_cache_key sample_cache sample_placeholder sample_home sample_tmp
                  all_ok (start (step_of [Some node_tool] [] [])) 0 eq_refl)
               eq_refl eq_refl eq_refl eq_refl).
Defined.

(** C5, counterexample.  After [Run] the command of the tool is
    "tar xf /tmp/tool.tgz", not the parsed "tar xf ${FILEPATH}", and
    [Subfolder] is "cache/node-v18.0.0", not the parsed "". *)
Lemma C5_counterexample :
  let w := start (step_of [Some tgz_tool] [] []) in
  let sp' := pointee (step (snd (sample_Run all_ok w))) in
  fst (sample_Run all_ok w) = Ok tt /\
  Installs sp' = [Some (set_Scripts tgz_tool ["tar xf /tmp/tool.tgz"])] /\
  Installs sp' <> Installs (pointee (step w)) /\
  Subfolder (S3Storage sp') = "cache/node-v18.0.0" /\
  Subfolder (S3Storage sp') <> Subfolder (S3Storage (pointee (step w))).
Proof. vm_compute. repeat split; try reflexivity; discriminate. Qed.

(** One command with the placeholder twice: what is left of it when the
    placeholder is taken out is determined. *)
Example erased_twice (r : string) :
  erased "${FILEPATH}" "rm -f ${FILEPATH} ${FILEPATH}.sha256" r ->
  r = "rm -f  .sha256".
Proof.
  intros H. symmetry.
  refine (erased_functional _ H).
  change "rm -f  .sha256"
    with (strings.ReplaceAll "rm -f ${FILEPATH} ${FILEPATH}.sha256" "${FILEPATH}" "").
  apply ReplaceAll_erased. discriminate.
Qed.

(** C7, at a sample: a tool without a download URL whose two commands
    hold the placeholder, once and twice. *)
Lemma C7_witness :
  let w := start (step_of [Some jdk_tool] [] []) in
  let w' := snd (sample_install (Some 0) all_ok w) in
  let commands := ["tar -xf  -C /opt"; "rm -f  .sha256"] in
  filter is_network (events_since w w') = [] /\
  nth_error (Installs (pointee (step w'))) 0 =
    Some (Some (set_Scripts jdk_tool commands)) /\
  Forall2 (erased "${FILEPATH}") (Scripts jdk_tool) commands /\
  filter (fun e => match e with EvWriteFile _ _ _ => true | _ => false end)
         (events_since w w') =
    [EvWriteFile "/tmp/install_script_7.sh"
                 ("set -ex" ++ newline ++ "tar -xf  -C /opt" ++ newline ++
                  "rm -f  .sha256") 448].
Proof.
  cbv zeta.
  assert (Hne : sample_placeholder <> EmptyString) by discriminate.
  pose proof (C7_no_download_no_network_call sample_cache sample_placeholder
                sample_home sample_tmp all_ok
                (start (step_of [Some jdk_tool] [] [])) 0 (t := jdk_tool)
                eq_refl eq_refl) as (Hnet & Hentry & Her & _ & _).
  split; [exact Hnet|split; [exact Hentry|split; [exact (Her Hne)|]]].
  vm_compute. reflexivity.
Defined.

(** C8, at a sample: the script of a tool whose only command is
    "echo hi". *)
Lemma C8_witness :
  let w := start (step_of [Some go_tool] [] []) in
  exists net k uid,
    events_since w (snd (sample_install (Some 0) all_ok w)) =
      net ++
      firstn k [EvNewUUID;
                EvWriteFile (scriptFile sample_tmp uid)
                            ("set -ex" ++ newline ++ "echo hi") 448;
                EvStdoutPipe; EvStderrPipe;
                EvCmdRun "/bin/bash" [scriptFile sample_tmp uid] "/workspace" ["B=2"]] /\
    forallb is_network net = true /\ (k = 0 \/ 2 <= k <= 5).
Proof.
  cbv zeta.
  destruct (C8_script_body_and_mode sample_cache sample_placeholder sample_home
              sample_tmp all_ok (start (step_of [Some go_tool] [] [])) 0
              (t := go_tool) eq_refl eq_refl)
    as (net & k & uid & Hcalls & Hnet & Hk & _).
  exists net, k, uid. split; [exact Hcalls|split; [exact Hnet|exact Hk]].
Defined.

(** C9, at the sample of the spec: of three tools the second fails; the
    third has no command and the error is the one of the second. *)
Lemma C9_witness :
  let o := command_fails 1 "exit status 1" in
  let w := start (step_of [Some tgz_tool; Some go_tool; Some make_tool] [] []) in
  (fst (sample_Run o w) = Err "exit status 1" /\
   cmd_envs (trace (snd (sample_Run o w))) = [["A=1"]; ["A=1"; "B=2"]]) /\
  fst (sample_Run all_ok w) = Ok tt.
Proof.
  cbv zeta.
  set (o := command_fails 1 "exit status 1").
  set (w := start (step_of [Some tgz_tool; Some go_tool; Some make_tool] [] [])).
  pose proof (C9_fail_fast sample_cache sample_placeholder sample_home sample_tmp o w)
    as [Hfail _].
  pose proof (C9_fail_fast sample_cache sample_placeholder sample_home sample_tmp all_ok w)
    as [_ Hok].
  split.
  - assert (H1 : installed sample_cache sample_placeholder sample_home sample_tmp
                           o 1 w (snd (sample_install (Some 0) o w))).
    { eapply installed_S; [apply installed_O|reflexivity|vm_compute; reflexivity]. }
    assert (H2 : sample_install (Some 1) o (snd (sample_install (Some 0) o w)) =
                 (Err "exit status 1",
                  snd (sample_install (Some 1) o (snd (sample_install (Some 0) o w)))))
      by (vm_compute; reflexivity).
    unfold sample_Run. rewrite (Hfail 1 _ go_tool _ _ H1 eq_refl H2).
    split; vm_compute; reflexivity.
  - assert (H3 : installed sample_cache sample_placeholder sample_home sample_tmp
                   all_ok 3 w (snd (sample_Run all_ok w))).
    { eapply installed_S;
        [eapply installed_S; [eapply installed_S; [apply installed_O|..]|..]|..];
        vm_compute; reflexivity. }
    unfold sample_Run. now rewrite (Hok _ H3).
Defined.

(** C10.  A nil entry handed to [runIntallationScripts] returns nil and
    changes nothing; but [Run] reads the name of the tool for its log line
    before, and panics: the tool after the nil entry is not installed. *)
Theorem C10_nil_entry_panics :
  let w := start (step_of [None; Some go_tool] [] []) in
  sample_install None all_ok w = (Ok tt, w) /\
  sample_Run all_ok w =
    (Panic "invalid memory address or nil pointer dereference", w).
Proof. vm_compute. split; reflexivity. Qed.

Unset Implicit Arguments.

(* ===================================================================== *)
(** * More properties: strings *)
(* ===================================================================== *)

Lemma length_append (a b : string) :
  String.length (a ++ b) = String.length a + String.length b.
Proof. induction a; simpl; congruence. Qed.

Lemma append_same_length (pre a post : string) :
  a = (pre ++ a ++ post)%string -> pre = EmptyString /\ post = EmptyString.
Proof.
  intros E. apply (f_equal String.length) in E.
  rewrite !length_append in E.
  destruct pre, post; simpl in E; try lia; auto.
Qed.

Lemma reverse_append (a b : string) :
  strings.reverse (a ++ b) = (strings.reverse b ++ strings.reverse a)%string.
Proof.
  induction a as [|c a IH]; simpl.
  - now rewrite append_nil_r.
  - now rewrite IH, append_assoc.
Qed.

Lemma reverse_involutive (s : string) : strings.reverse (strings.reverse s) = s.
Proof.
  induction s as [|c s IH]; [reflexivity|]. simpl.
  now rewrite reverse_append, IH.
Qed.

Lemma prefix_nil (s : string) : String.prefix EmptyString s = true.
Proof. now destruct s. Qed.

Lemma prefix_split (a s : string) :
  String.prefix a s = true -> exists r, s = (a ++ r)%string.
Proof.
  revert s; induction a as [|c a IH]; intros s H; [now exists s|].
  destruct s as [|d s]; [discriminate|]. simpl in H.
  destruct (ascii_dec c d) as [->|]; [|discriminate].
  destruct (IH s H) as [r ->]. now exists r.
Qed.

Lemma prefix_weaken (e b r : string) :
  String.prefix e b = true -> String.prefix e (b ++ r) = true.
Proof.
  intros H. destruct (prefix_split _ _ H) as [q ->].
  rewrite append_assoc. apply prefix_append.
Qed.

(** A pattern without the byte [c] that starts [a ++ c ...] starts
    [a]. *)
Lemma prefix_boundary (e a r : string) (c : ascii) :
  strings.IndexByte e c = false ->
  String.prefix e (a ++ String c r) = true -> String.prefix e a = true.
Proof.
  revert a; induction e as [|x e IH]; intros a He H; [apply prefix_nil|].
  cbn [strings.IndexByte] in He. apply orb_false_elim in He as [Hx He].
  destruct a as [|d a]; simpl in H |- *.
  - destruct (ascii_dec x c) as [->|]; [|discriminate].
    now rewrite Ascii.eqb_refl in Hx.
  - destruct (ascii_dec x d); [|discriminate]. now apply IH.
Qed.

Lemma IndexByte_sub (pre s post : string) (c : ascii) :
  strings.IndexByte s c = true ->
  strings.IndexByte (pre ++ s ++ post) c = true.
Proof.
  intros H. rewrite !IndexByte_append, H. now rewrite orb_true_r.
Qed.

(** ** White space at the front of a string *)

Lemma trim_scan_suffix (encodings : list string) (s : string) :
  forall skip, exists pre, s = (pre ++ strings.trim_scan encodings skip s)%string.
Proof.
  induction s as [|c s IH]; intros skip; [now exists EmptyString|].
  cbn [strings.trim_scan]. destruct skip as [|k].
  - destruct (strings.space_width encodings (String c s)) as [|k].
    + now exists EmptyString.
    + destruct (IH k) as [pre E]. exists (String c pre). simpl. now rewrite <- E.
  - destruct (IH k) as [pre E]. exists (String c pre). simpl. now rewrite <- E.
Qed.

Lemma trim_scan_width (encodings : list string) (s : string) :
  forall skip,
    strings.space_width encodings (strings.trim_scan encodings skip s) = 0.
Proof.
  induction s as [|c s IH]; intros skip; [reflexivity|].
  cbn [strings.trim_scan]. destruct skip as [|k]; [|apply IH].
  destruct (strings.space_width encodings (String c s)) as [|k] eqn:E;
    [exact E|apply IH].
Qed.

Lemma trim_scan_fixed (encodings : list string) (s : string) :
  strings.space_width encodings s = 0 -> strings.trim_scan encodings 0 s = s.
Proof.
  intros H. destruct s as [|c s]; [reflexivity|].
  cbn [strings.trim_scan]. now rewrite H.
Qed.

Lemma trim_scan_idempotent (encodings : list string) (s : string) :
  strings.trim_scan encodings 0 (strings.trim_scan encodings 0 s) =
  strings.trim_scan encodings 0 s.
Proof. apply trim_scan_fixed, trim_scan_width. Qed.

Lemma encoded_space_prefix (encodings : list string) (b r : string) :
  strings.encoded_space encodings (b ++ r) = 0 ->
  strings.encoded_space encodings b = 0.
Proof.
  induction encodings as [|e es IH]; [reflexivity|]. cbn [strings.encoded_space].
  destruct (String.prefix e (b ++ r)) eqn:Ea.
  - intros H. destruct e; [|discriminate]. now rewrite prefix_nil.
  - destruct (String.prefix e b) eqn:Eb; [|exact IH].
    now rewrite (@prefix_weaken e b r Eb) in Ea.
Qed.

(** The front of a string that starts with no white space starts with
    none. *)
Lemma space_width_prefix (encodings : list string) (b r : string) :
  strings.space_width encodings (b ++ r) = 0 ->
  strings.space_width encodings b = 0.
Proof.
  destruct b as [|c b]; [reflexivity|]. cbn [String.append strings.space_width].
  destruct (strings.asciiSpace c); [discriminate|].
  apply (@encoded_space_prefix encodings (String c b)).
Qed.

Lemma encoded_space_boundary (encodings : list string) (a r : string) (c : ascii) :
  Forall (fun e => strings.IndexByte e c = false) encodings ->
  strings.encoded_space encodings a = 0 ->
  strings.encoded_space encodings (a ++ String c r) = 0.
Proof.
  induction 1 as [|e es He _ IH]; [reflexivity|]. cbn [strings.encoded_space].
  destruct (String.prefix e (a ++ String c r)) eqn:E.
  - rewrite (@prefix_boundary e a r c He E). auto.
  - destruct (String.prefix e a); [|exact IH].
    intros H. destruct e; [now rewrite prefix_nil in E|discriminate].
Qed.

(** A byte that belongs to no encoding cannot complete white space at
    the front of the string it is appended to. *)
Lemma space_width_boundary (encodings : list string) (a r : string) (c : ascii) :
  Forall (fun e => strings.IndexByte e c = false) encodings ->
  (a = EmptyString -> strings.asciiSpace c = false) ->
  strings.space_width encodings a = 0 ->
  strings.space_width encodings (a ++ String c r) = 0.
Proof.
  intros Hc Ha H. destruct a as [|d a].
  - cbn [String.append strings.space_width]. rewrite (Ha eq_refl).
    apply (@encoded_space_boundary encodings EmptyString r c Hc).
    clear. induction encodings as [|e es IH]; [reflexivity|].
    cbn [strings.encoded_space]. destruct e; [reflexivity|exact IH].
  - cbn [String.append strings.space_width] in H |- *.
    destruct (strings.asciiSpace d); [discriminate|].
    now apply (@encoded_space_boundary encodings (String d a)).
Qed.

(** Blank bytes at the front are dropped. *)
Lemma trim_scan_blank (encodings : list string) (p s : string) :
  strings.blank p = true ->
  strings.trim_scan encodings 0 (p ++ s) = strings.trim_scan encodings 0 s.
Proof.
  induction p as [|c p IH]; [reflexivity|]. cbn [strings.blank].
  intros H. apply andb_prop in H as [H Hp]. apply andb_prop in H as [Hc _].
  cbn [String.append strings.trim_scan strings.space_width]. rewrite Hc.
  now apply IH.
Qed.


(** ** [TrimSpace] *)

Lemma TrimLeftSpace_suffix (s : string) :
  exists pre, s = (pre ++ strings.TrimLeftSpace s)%string.
Proof. apply trim_scan_suffix. Qed.

Lemma TrimRightSpace_prefix (s : string) :
  exists post, s = (strings.TrimRightSpace s ++ post)%string.
Proof.
  destruct (trim_scan_suffix (map strings.reverse strings.unicodeSpace)
                             (strings.reverse s) 0) as [pre E].
  exists (strings.reverse pre). unfold strings.TrimRightSpace.
  rewrite <- reverse_append, <- E. symmetry. apply reverse_involutive.
Qed.

(** What [TrimSpace] returns is a piece of its argument. *)
Lemma TrimSpace_sub (s : string) :
  exists pre post, s = (pre ++ strings.TrimSpace s ++ post)%string.
Proof.
  destruct (TrimLeftSpace_suffix s) as [pre E].
  destruct (TrimRightSpace_prefix (strings.TrimLeftSpace s)) as [post E'].
  exists pre, post. unfold strings.TrimSpace. now rewrite <- E', <- E.
Qed.

Lemma TrimSpace_of_widths (s : string) :
  strings.space_width strings.unicodeSpace s = 0 ->
  strings.space_width (map strings.reverse strings.unicodeSpace)
                      (strings.reverse s) = 0 ->
  strings.TrimSpace s = s.
Proof.
  intros Hl Hr. unfold strings.TrimSpace, strings.TrimLeftSpace, strings.TrimRightSpace.
  rewrite (trim_scan_fixed _ _ Hl), (trim_scan_fixed _ _ Hr).
  apply reverse_involutive.
Qed.

Lemma TrimSpace_widths (s : string) :
  strings.TrimSpace s = s ->
  strings.space_width strings.unicodeSpace s = 0 /\
  strings.space_width (map strings.reverse strings.unicodeSpace)
                      (strings.reverse s) = 0.
Proof.
  intros E.
  destruct (TrimLeftSpace_suffix s) as [pre Hpre].
  destruct (TrimRightSpace_prefix (strings.TrimLeftSpace s)) as [post Hpost].
  fold (strings.TrimSpace s) in Hpost. rewrite E in Hpost.
  rewrite Hpost in Hpre.
  destruct (append_same_length _ _ _ Hpre) as [-> ->].
  rewrite append_nil_r in Hpost.
  split.
  - rewrite <- Hpost at 1. apply trim_scan_width.
  - unfold strings.TrimSpace in E. rewrite Hpost in E.
    unfold strings.TrimRightSpace in E.
    apply (f_equal strings.reverse) in E. rewrite reverse_involutive in E.
    rewrite <- E. apply trim_scan_width.
Qed.

(** [TrimSpace] leaves nothing for a second [TrimSpace]. *)
Lemma TrimSpace_idempotent (s : string) :
  strings.TrimSpace (strings.TrimSpace s) = strings.TrimSpace s.
Proof.
  apply TrimSpace_of_widths.
  - destruct (TrimRightSpace_prefix (strings.TrimLeftSpace s)) as [post E].
    apply (@space_width_prefix strings.unicodeSpace _ post).
    unfold strings.TrimSpace. rewrite <- E. apply trim_scan_width.
  - unfold strings.TrimSpace, strings.TrimRightSpace.
    rewrite reverse_involutive. apply trim_scan_width.
Qed.

Lemma IndexByte_TrimSpace (s : string) (c : ascii) :
  strings.IndexByte s c = false ->
  strings.IndexByte (strings.TrimSpace s) c = false.
Proof.
  intros H. destruct (TrimSpace_sub s) as (pre & post & E).
  destruct (strings.IndexByte (strings.TrimSpace s) c) eqn:Hc; [|reflexivity].
  rewrite E, (IndexByte_sub pre _ post c Hc) in H. discriminate.
Qed.

(** No encoding of white space above U+007F holds a byte below 0x80. *)
Lemma unicodeSpace_ascii7 (c : ascii) :
  strings.ascii7 c = true ->
  Forall (fun e => strings.IndexByte e c = false) strings.unicodeSpace /\
  Forall (fun e => strings.IndexByte e c = false)
         (map strings.reverse strings.unicodeSpace).
Proof.
  intros H.
  assert (E : forallb (fun e => negb (strings.IndexByte e c))
                      (strings.unicodeSpace ++
                       map strings.reverse strings.unicodeSpace) = true).
  { destruct c as [b0 b1 b2 b3 b4 b5 b6 b7]. cbn [strings.ascii7] in H.
    apply negb_true_iff in H. subst b7.
    destruct b0, b1, b2, b3, b4, b5, b6; vm_compute; reflexivity. }
  rewrite forallb_app in E. apply andb_prop in E as [E1 E2].
  rewrite forallb_forall in E1, E2.
  split; apply Forall_forall; intros e He; apply negb_true_iff; auto.
Qed.

Lemma asciiSpace_ascii7 (c : ascii) :
  strings.asciiSpace c = true -> strings.ascii7 c = true.
Proof.
  destruct c as [b0 b1 b2 b3 b4 b5 b6 b7].
  destruct b7; [|reflexivity].
  destruct b0, b1, b2, b3, b4, b5, b6; vm_compute; congruence.
Qed.

(** ** Blank strings *)

Lemma blank_append (p q : string) :
  strings.blank (p ++ q) = strings.blank p && strings.blank q.
Proof.
  induction p as [|c p IH]; [reflexivity|]. cbn [String.append strings.blank].
  rewrite IH. now rewrite andb_assoc.
Qed.

Lemma blank_reverse (p : string) : strings.blank (strings.reverse p) = strings.blank p.
Proof.
  induction p as [|c p IH]; [reflexivity|]. cbn [strings.reverse].
  rewrite blank_append, IH. cbn [strings.blank].
  rewrite andb_true_r. apply andb_comm.
Qed.

Lemma blank_IndexByte (p : string) (c : ascii) :
  strings.asciiSpace c = false \/ c = ascii_of_nat 10 ->
  strings.blank p = true -> strings.IndexByte p c = false.
Proof.
  intros Hc. induction p as [|d p IH]; [reflexivity|]. cbn [strings.blank strings.IndexByte].
  intros H. apply andb_prop in H as [H Hp]. apply andb_prop in H as [Hd Hn].
  rewrite (IH Hp), orb_false_r. apply Ascii.eqb_neq. intros ->.
  destruct Hc as [Hc| ->]; [congruence|].
  now rewrite Ascii.eqb_refl in Hn.
Qed.

(** A blank string followed by a byte below 0x80 starts with a byte
    below 0x80. *)
Lemma blank_head (p r : string) (c : ascii) :
  strings.blank p = true -> strings.ascii7 c = true ->
  exists d q, (p ++ String c r)%string = String d q /\ strings.ascii7 d = true.
Proof.
  intros Hp Hc. destruct p as [|d p]; [now exists c, r|].
  exists d, (p ++ String c r)%string. split; [reflexivity|].
  cbn [strings.blank] in Hp. apply andb_prop in Hp as [Hp _].
  apply andb_prop in Hp as [Hd _]. now apply asciiSpace_ascii7.
Qed.

(** White space of the fast path around a trimmed string is dropped. *)
Lemma TrimSpace_padded (p x q : string) :
  strings.blank p = true -> strings.blank q = true ->
  strings.TrimSpace x = x ->
  strings.TrimSpace (p ++ x ++ q) = x.
Proof.
  intros Hp Hq Hx. destruct (TrimSpace_widths _ Hx) as [Hl Hr].
  unfold strings.TrimSpace, strings.TrimLeftSpace.
  rewrite (trim_scan_blank _ _ _ Hp).
  assert (El : strings.trim_scan strings.unicodeSpace 0 (x ++ q) =
               if String.eqb x "" then EmptyString else (x ++ q)%string).
  { destruct x as [|a x].
    - cbn [String.append String.eqb].
      rewrite <- (append_nil_r q), (trim_scan_blank _ _ _ Hq). reflexivity.
    - cbn [String.eqb]. apply trim_scan_fixed.
      destruct q as [|c q]; [now rewrite append_nil_r|].
      cbn [strings.blank] in Hq. apply andb_prop in Hq as [Hq _].
      apply andb_prop in Hq as [Hc _].
      apply space_width_boundary; [|discriminate|exact Hl].
      apply unicodeSpace_ascii7. now apply asciiSpace_ascii7. }
  rewrite El. destruct x as [|a x]; [reflexivity|]. cbn [String.eqb].
  unfold strings.TrimRightSpace. rewrite reverse_append.
  rewrite trim_scan_blank by now rewrite blank_reverse.
  rewrite (trim_scan_fixed _ _ Hr). apply reverse_involutive.
Qed.

(** ** [Index] and slices *)

Lemma Index_absent (s : string) (c : ascii) :
  strings.IndexByte s c = false <-> (strings.Index s c < 0)%Z.
Proof.
  induction s as [|d s IH]; cbn [strings.IndexByte strings.Index]; [lia|].
  rewrite (Ascii.eqb_sym c d).
  destruct (Ascii.eqb d c); cbn [orb]; [split; [discriminate|intros; exfalso; lia]|].
  destruct (Z.ltb_spec (strings.Index s c) 0); rewrite IH; lia.
Qed.

Lemma Index_append (k r : string) (c : ascii) :
  strings.IndexByte k c = false ->
  strings.Index (k ++ String c r) c = Z.of_nat (String.length k).
Proof.
  induction k as [|d k IH]; cbn [String.append strings.Index strings.IndexByte String.length].
  - now rewrite Ascii.eqb_refl.
  - intros H. apply orb_false_elim in H as [Hd Hk].
    rewrite Ascii.eqb_sym in Hd. rewrite Hd, (IH Hk).
    destruct (Z.ltb_spec (Z.of_nat (String.length k)) 0); lia.
Qed.

(** The slice before the first occurrence of a byte does not hold it. *)
Lemma slice_to_Index (s : string) (c : ascii) :
  (0 <= strings.Index s c)%Z ->
  strings.IndexByte (strings.slice_to s (Z.to_nat (strings.Index s c))) c = false.
Proof.
  induction s as [|d s IH]; cbn [strings.Index]; [lia|].
  destruct (Ascii.eqb d c) eqn:Hd; [reflexivity|].
  destruct (Z.ltb_spec (strings.Index s c) 0) as [|Hi]; [lia|]. intros _.
  replace (Z.to_nat (strings.Index s c + 1)) with (S (Z.to_nat (strings.Index s c)))
    by lia.
  cbn [strings.slice_to strings.IndexByte].
  rewrite Ascii.eqb_sym, Hd. exact (IH Hi).
Qed.

Lemma slice_to_prefix (s : string) (n : nat) :
  exists r, s = (strings.slice_to s n ++ r)%string.
Proof.
  revert s; induction n as [|n IH]; intros [|c s];
    try (now exists EmptyString); [now exists (String c s)|].
  destruct (IH s) as [r E]. exists r. cbn. now rewrite <- E.
Qed.

Lemma slice_from_suffix (s : string) (n : nat) :
  exists p, s = (p ++ strings.slice_from s n)%string.
Proof.
  revert s; induction n as [|n IH]; intros [|c s];
    try (now exists EmptyString).
  destruct (IH s) as [p E]. exists (String c p). cbn. now rewrite <- E.
Qed.

Lemma slice_to_append (k r : string) :
  strings.slice_to (k ++ r) (String.length k) = k.
Proof.
  induction k as [|c k IH]; cbn; [now destruct r|]. now rewrite IH.
Qed.

Lemma slice_from_append (k r : string) (c : ascii) :
  strings.slice_from (k ++ String c r) (S (String.length k)) = r.
Proof. induction k as [|d k IH]; cbn; [now destruct r|exact IH]. Qed.

Lemma IndexByte_prefix (a r : string) (c : ascii) :
  strings.IndexByte (a ++ r) c = false -> strings.IndexByte a c = false.
Proof. rewrite IndexByte_append. intros H. now apply orb_false_elim in H. Qed.

Lemma IndexByte_suffix (p a : string) (c : ascii) :
  strings.IndexByte (p ++ a) c = false -> strings.IndexByte a c = false.
Proof. rewrite IndexByte_append. intros H. now apply orb_false_elim in H. Qed.

(** The pieces of [Split] do not hold the separator. *)
Lemma Split_pieces (s : string) (sep : ascii) :
  Forall (fun piece => strings.IndexByte piece sep = false) (strings.Split s sep).
Proof.
  induction s as [|c s IH]; cbn [strings.Split]; [now repeat constructor|].
  destruct (Ascii.eqb c sep) eqn:Hc; [constructor; [reflexivity|exact IH]|].
  assert (Hcs : forall piece, strings.IndexByte piece sep = false ->
                              strings.IndexByte (String c piece) sep = false).
  { intros piece Hp. cbn [strings.IndexByte]. now rewrite Ascii.eqb_sym, Hc, Hp. }
  destruct (strings.Split s sep) as [|piece pieces]; [now repeat constructor; apply Hcs|].
  inversion IH as [|? ? Hp Hps]; subst. constructor; [now apply Hcs|exact Hps].
Qed.

(** Splitting what was joined gives the pieces back. *)
Lemma Split_Join (lines : list string) (sep : ascii) :
  lines <> [] ->
  Forall (fun line => strings.IndexByte line sep = false) lines ->
  strings.Split (strings.Join lines (String sep EmptyString)) sep = lines.
Proof.
  induction lines as [|line [|line' rest] IH]; intros Hne Hall; [congruence| |].
  - inversion Hall; subst. now apply Split_no_sep.
  - inversion Hall as [|? ? Hl Hrest]; subst.
    change (strings.Join (line :: line' :: rest) (String sep EmptyString))
      with (line ++ String sep (strings.Join (line' :: rest) (String sep EmptyString)))%string.
    rewrite (Split_append_sep _ _ _ Hl), IH; [reflexivity|discriminate|exact Hrest].
Qed.

(* ===================================================================== *)
(** * More properties: [getKeyValue] *)
(* ===================================================================== *)

(** A line that ends the loop: the key is a proper one, but for the line
    feed, and the value is trimmed. *)
Lemma kvLine_found (line key v : string) :
  sonar.kvLine line key = Some v ->
  key <> EmptyString /\ strings.TrimSpace key = key /\
  strings.IndexByte key "="%char = false /\
  strings.TrimSpace v = v /\
  (forall c, strings.IndexByte line c = false ->
             strings.IndexByte key c = false /\ strings.IndexByte v c = false).
Proof.
  unfold sonar.kvLine. cbv zeta.
  set (t := strings.TrimSpace line).
  destruct (Z.ltb_spec (strings.Index t "="%char) 0) as [|Hi]; [discriminate|].
  set (found := strings.TrimSpace (strings.slice_to t _)).
  destruct (Nat.eqb_spec (String.length found) 0) as [|Hlen]; [discriminate|].
  destruct (String.eqb_spec found key) as [<-|]; cbn [negb]; [|discriminate].
  intros [= <-]. repeat split.
  - intros E. now rewrite E in Hlen.
  - apply TrimSpace_idempotent.
  - apply IndexByte_TrimSpace, slice_to_Index, Hi.
  - apply TrimSpace_idempotent.
  - apply IndexByte_TrimSpace.
    destruct (slice_to_prefix t (Z.to_nat (strings.Index t "="%char))) as [r E].
    apply (IndexByte_prefix _ r). rewrite <- E. now apply IndexByte_TrimSpace.
  - apply IndexByte_TrimSpace.
    destruct (slice_from_suffix t (Z.to_nat (strings.Index t "="%char + 1))) as [p E].
    apply (IndexByte_suffix p). rewrite <- E. now apply IndexByte_TrimSpace.
Qed.

Lemma proper_key_widths (k : string) :
  sonar.proper_key k ->
  exists c k', k = String c k' /\
    strings.space_width strings.unicodeSpace k = 0 /\
    strings.space_width (map strings.reverse strings.unicodeSpace)
                        (strings.reverse k) = 0.
Proof.
  intros (Hne & Ht & _ & _). destruct (TrimSpace_widths k Ht) as [Hl Hr].
  destruct k as [|c k']; [congruence|]. now exists c, k'.
Qed.

(** A string that is trimmed stays so when a byte below 0x80 that is not
    white space, and anything, is put before it or after it. *)
Lemma TrimSpace_glue (x y : string) (c : ascii) :
  strings.TrimSpace x = x -> strings.TrimSpace y = y ->
  strings.ascii7 c = true -> strings.asciiSpace c = false ->
  forall p q, strings.blank p = true -> strings.blank q = true ->
  x <> EmptyString ->
  strings.TrimSpace (x ++ p ++ String c (q ++ y)) =
  if String.eqb y "" then (x ++ p ++ String c EmptyString)%string
  else (x ++ p ++ String c (q ++ y))%string.
Proof.
  intros Hx Hy Hc Hsp p q Hp Hq Hne.
  destruct (TrimSpace_widths x Hx) as [Hxl Hxr].
  destruct (TrimSpace_widths y Hy) as [Hyl Hyr].
  destruct (unicodeSpace_ascii7 c Hc) as [Fl Fr].
  assert (Hleft : forall z,
             strings.space_width strings.unicodeSpace (x ++ p ++ String c z) = 0).
  { intros z. destruct (blank_head p z c Hp Hc) as (d & r & -> & Hd).
    apply space_width_boundary; [now apply unicodeSpace_ascii7|congruence|exact Hxl]. }
  destruct (String.eqb_spec y "") as [->|Hy0].
  - rewrite append_nil_r.
    replace (x ++ p ++ String c q)%string
      with (EmptyString ++ (x ++ p ++ String c EmptyString) ++ q)%string
      by (cbn [String.append]; repeat (rewrite !append_assoc; cbn [String.append]); reflexivity).
    apply TrimSpace_padded; [reflexivity|exact Hq|].
    apply TrimSpace_of_widths; [apply Hleft|].
    rewrite !reverse_append. cbn [strings.reverse String.append].
    apply (space_width_boundary _ EmptyString); [exact Fr|auto|reflexivity].
  - apply TrimSpace_of_widths; [apply Hleft|].
    rewrite !reverse_append. cbn [strings.reverse]. rewrite !reverse_append.
    rewrite !append_assoc. cbn [String.append].
    destruct (blank_head (strings.reverse q) (strings.reverse p ++ strings.reverse x) c)
      as (d & r & E & Hd); [now rewrite blank_reverse|exact Hc|].
    rewrite E.
    apply space_width_boundary; [now apply unicodeSpace_ascii7| |exact Hyr].
    intros E0. apply (f_equal strings.reverse) in E0.
    rewrite reverse_involutive in E0. contradiction.
Qed.

(** What the loop makes of a line "key = value", with white space of the
    fast path around the line, the key and the value. *)
Lemma kvLine_padded (p1 k p2 p3 v p4 key : string) :
  strings.blank p1 = true -> strings.blank p2 = true ->
  strings.blank p3 = true -> strings.blank p4 = true ->
  sonar.proper_key k -> sonar.proper_value v ->
  sonar.kvLine (p1 ++ k ++ p2 ++ "=" ++ p3 ++ v ++ p4) key =
  if String.eqb k key then Some v else None.
Proof.
  intros H1 H2 H3 H4 Hk Hv.
  pose proof Hk as (Hne & Hkt & Hkeq & _). destruct Hv as (Hvt & _).
  assert (Ht : strings.TrimSpace (p1 ++ k ++ p2 ++ "=" ++ p3 ++ v ++ p4) =
               (k ++ p2 ++ String "="%char
                  (if String.eqb v "" then EmptyString else p3 ++ v))%string).
  { pose proof (TrimSpace_glue k v "="%char Hkt Hvt eq_refl eq_refl p2 p3 H2 H3 Hne)
      as G.
    destruct (String.eqb_spec v "") as [->|Hv0].
    - replace (p1 ++ k ++ p2 ++ "=" ++ p3 ++ "" ++ p4)%string
        with (p1 ++ (k ++ p2 ++ String "="%char EmptyString) ++ (p3 ++ p4))%string
        by (cbn [String.append]; repeat (rewrite !append_assoc; cbn [String.append]); reflexivity).
      apply TrimSpace_padded; [exact H1|now rewrite blank_append, H3, H4|].
      pose proof (TrimSpace_glue k EmptyString "="%char Hkt eq_refl eq_refl eq_refl
                    p2 EmptyString H2 eq_refl Hne) as G0.
      exact G0.
    - replace (p1 ++ k ++ p2 ++ "=" ++ p3 ++ v ++ p4)%string
        with (p1 ++ (k ++ p2 ++ String "="%char (p3 ++ v)) ++ p4)%string
        by (cbn [String.append]; repeat (rewrite !append_assoc; cbn [String.append]); reflexivity).
      apply TrimSpace_padded; [exact H1|exact H4|exact G]. }
  unfold sonar.kvLine. cbv zeta. rewrite Ht.
  set (w := if String.eqb v "" then EmptyString else (p3 ++ v)%string).
  assert (Hi : strings.Index (k ++ p2 ++ String "="%char w) "="%char =
               Z.of_nat (String.length (k ++ p2))).
  { rewrite <- (append_assoc k p2). apply Index_append.
    rewrite IndexByte_append, Hkeq. now apply blank_IndexByte; [left|]. }
  rewrite Hi.
  destruct (Z.ltb_spec (Z.of_nat (String.length (k ++ p2))) 0) as [|_]; [lia|].
  rewrite Nat2Z.id.
  replace (Z.to_nat (Z.of_nat (String.length (k ++ p2)) + 1))
    with (S (String.length (k ++ p2))) by lia.
  rewrite <- (append_assoc k p2), slice_to_append, slice_from_append.
  assert (Hkey : strings.TrimSpace (k ++ p2) = k).
  { apply (TrimSpace_padded EmptyString k p2); auto. }
  rewrite Hkey.
  destruct k as [|c k']; [congruence|]. cbn [String.length Nat.eqb].
  destruct (String.eqb (String c k') key); cbn [negb]; [|reflexivity].
  f_equal. unfold w. destruct (String.eqb_spec v "") as [->|_]; [reflexivity|].
  rewrite <- (append_nil_r (p3 ++ v)), append_assoc.
  now apply TrimSpace_padded.
Qed.

Lemma range_improper (lines : list string) (key : string) :
  Forall (fun line => strings.IndexByte line (ascii_of_nat 10) = false) lines ->
  ~ sonar.proper_key key ->
  sonar.range_kvStrs lines key = EmptyString.
Proof.
  intros Hall Hkey. induction Hall as [|line lines Hl _ IH]; [reflexivity|].
  cbn [sonar.range_kvStrs].
  destruct (sonar.kvLine line key) as [v|] eqn:E; [|exact IH].
  destruct (kvLine_found line key v E) as (H1 & H2 & H3 & _ & H5).
  exfalso. apply Hkey. repeat split; auto. now apply H5.
Qed.

(** X1.  A key that is empty, has white space around it or holds "=" or
    a line feed is never found: [getKeyValue] returns the empty
    string. *)
Theorem getKeyValue_improper_key (content key : string) :
  ~ sonar.proper_key key -> sonar.getKeyValue content key = EmptyString.
Proof. intros H. apply range_improper; [apply Split_pieces|exact H]. Qed.

(** X2.  What [getKeyValue] returns has no white space around it and no
    line feed in it. *)
Theorem getKeyValue_trimmed (content key : string) :
  strings.TrimSpace (sonar.getKeyValue content key) = sonar.getKeyValue content key /\
  strings.IndexByte (sonar.getKeyValue content key) (ascii_of_nat 10) = false.
Proof.
  unfold sonar.getKeyValue.
  pose proof (Split_pieces content (ascii_of_nat 10)) as Hall.
  induction Hall as [|line lines Hl _ IH]; [split; reflexivity|].
  cbn [sonar.range_kvStrs].
  destruct (sonar.kvLine line key) as [v|] eqn:E; [|exact IH].
  destruct (kvLine_found line key v E) as (_ & _ & _ & H4 & H5).
  split; [exact H4|now apply H5].
Qed.

Lemma range_pairs (kvs : list (string * string)) (key : string) :
  Forall (fun kv => sonar.proper_key (fst kv) /\ sonar.proper_value (snd kv)) kvs ->
  sonar.range_kvStrs (map (fun kv => (fst kv ++ "=" ++ snd kv)%string) kvs) key =
  sonar.first_value kvs key.
Proof.
  induction 1 as [|[k v] kvs [Hk Hv] _ IH]; [reflexivity|].
  cbn [map sonar.range_kvStrs sonar.first_value fst snd].
  pose proof (kvLine_padded EmptyString k EmptyString EmptyString v EmptyString key
                eq_refl eq_refl eq_refl eq_refl Hk Hv) as E.
  cbn [String.append] in E. rewrite append_nil_r in E.
  cbn [String.append]. rewrite E.
  destruct (String.eqb k key); [reflexivity|exact IH].
Qed.

(** X3.  On a text of "key=value" lines with proper keys and values,
    [getKeyValue] is the lookup of the first pair with the key, and the
    empty string when no pair has it. *)
Theorem getKeyValue_render (kvs : list (string * string)) (key : string) :
  Forall (fun kv => sonar.proper_key (fst kv) /\ sonar.proper_value (snd kv)) kvs ->
  sonar.getKeyValue (sonar.render kvs) key = sonar.first_value kvs key.
Proof.
  intros Hall. unfold sonar.getKeyValue, sonar.render.
  destruct kvs as [|kv kvs]; [reflexivity|].
  change newline with (String (ascii_of_nat 10) EmptyString).
  rewrite Split_Join; [now apply range_pairs|discriminate|].
  apply Forall_forall. intros line Hin. apply in_map_iff in Hin as (kv' & <- & Hin).
  rewrite Forall_forall in Hall. destruct (Hall kv' Hin) as [(_ & _ & _ & Hk) (_ & Hv)].
  rewrite !IndexByte_append, Hk, Hv. reflexivity.
Qed.

(** X4.  White space of the fast path around a line, its key and its
    value is ignored, and the first line with the key decides: a line
    "key = value" gives [value] for its key and is passed over for any
    other key. *)
Theorem getKeyValue_first_line (p1 k p2 p3 v p4 rest key : string) :
  strings.blank p1 = true -> strings.blank p2 = true ->
  strings.blank p3 = true -> strings.blank p4 = true ->
  sonar.proper_key k -> sonar.proper_value v ->
  sonar.getKeyValue (p1 ++ k ++ p2 ++ "=" ++ p3 ++ v ++ p4 ++ newline ++ rest) key =
  if String.eqb k key then v else sonar.getKeyValue rest key.
Proof.
  intros H1 H2 H3 H4 Hk Hv. unfold sonar.getKeyValue.
  pose proof Hk as (_ & _ & _ & Hkn). pose proof Hv as (_ & Hvn).
  assert (Hnl : forall p, strings.blank p = true ->
                          strings.IndexByte p (ascii_of_nat 10) = false)
    by (intros p; apply blank_IndexByte; now right).
  replace (p1 ++ k ++ p2 ++ "=" ++ p3 ++ v ++ p4 ++ newline ++ rest)%string
    with ((p1 ++ k ++ p2 ++ "=" ++ p3 ++ v ++ p4) ++
          String (ascii_of_nat 10) rest)%string
    by (cbn [String.append]; repeat (rewrite !append_assoc; cbn [String.append]); reflexivity).
  rewrite Split_append_sep.
  - cbn [sonar.range_kvStrs]. rewrite kvLine_padded by assumption.
    now destruct (String.eqb k key).
  - rewrite !IndexByte_append, Hkn, Hvn, (Hnl p1 H1), (Hnl p2 H2), (Hnl p3 H3),
      (Hnl p4 H4). reflexivity.
Qed.

(* ===================================================================== *)
(** * More properties: [WaitForCETaskTobeDone] *)
(* ===================================================================== *)

(** Turns that do not end the loop are passed over. *)
Lemma Wait_polls (taskID : string) (pre rest : list sonar.Fired) :
  Forall (fun f => sonar.terminal f = false) pre ->
  sonar.WaitForCETaskTobeDone taskID (pre ++ rest) =
  sonar.WaitForCETaskTobeDone taskID rest.
Proof.
  induction 1 as [|f pre Hf _ IH]; [reflexivity|].
  destruct f as [|[info|err]]; try discriminate.
  cbn [sonar.terminal] in Hf. cbn [app sonar.WaitForCETaskTobeDone sonar.GetCETaskInfo].
  apply orb_false_elim in Hf as [Hf Hfailed].
  apply orb_false_elim in Hf as [Hsuccess Hcanceled].
  now rewrite Hsuccess, Hcanceled, Hfailed.
Qed.

(** X5.  The loop ends at the first turn that is the timeout, a failed
    request or an answer with status SUCCESS, CANCELED or FAILED: what
    comes after that turn is never looked at, and before it the loop
    still waits. *)
Theorem Wait_first_terminal
        (taskID : string) (pre post : list sonar.Fired) (f : sonar.Fired) :
  Forall (fun f => sonar.terminal f = false) pre ->
  sonar.terminal f = true ->
  sonar.WaitForCETaskTobeDone taskID pre = None /\
  sonar.WaitForCETaskTobeDone taskID (pre ++ f :: post) =
    sonar.WaitForCETaskTobeDone taskID [f] /\
  sonar.WaitForCETaskTobeDone taskID [f] <> None.
Proof.
  intros Hpre Hf. repeat split.
  - rewrite <- (app_nil_r pre). now rewrite Wait_polls.
  - rewrite Wait_polls by assumption.
    destruct f as [|[info|err]]; try reflexivity.
    cbn [sonar.terminal] in Hf. cbn [sonar.WaitForCETaskTobeDone sonar.GetCETaskInfo].
    destruct (String.eqb _ sonar.CETaskSuccess); [reflexivity|].
    cbn [orb] in Hf. now rewrite Hf.
  - destruct f as [|[info|err]]; try discriminate.
    cbn [sonar.terminal] in Hf. cbn [sonar.WaitForCETaskTobeDone sonar.GetCETaskInfo].
    destruct (String.eqb _ sonar.CETaskSuccess); [discriminate|].
    cbn [orb] in Hf. now rewrite Hf.
Qed.

(** X6.  An analysis is returned only with a nil error, and it is the
    analysis of an answer with status SUCCESS before which the loop saw no
    timeout, no failed request and no CANCELED or FAILED answer; with an
    error the string returned is empty. *)
Theorem Wait_returns
        (taskID : string) (fired : list sonar.Fired)
        (analysis : string) (err : option string) :
  sonar.WaitForCETaskTobeDone taskID fired = Some (analysis, err) ->
  match err with
  | Some _ => analysis = EmptyString
  | None =>
      exists pre info post,
        fired = pre ++ sonar.Tick (sonar.Fetched_task info) :: post /\
        Forall (fun f => sonar.terminal f = false) pre /\
        sonar.Status (sonar.Task info) = sonar.CETaskSuccess /\
        analysis = sonar.AnalysisID (sonar.Task info)
  end.
Proof.
  induction fired as [|f fired IH]; [discriminate|].
  destruct f as [|[info|e]]; cbn [sonar.WaitForCETaskTobeDone sonar.GetCETaskInfo].
  - now intros [= <- <-].
  - destruct (String.eqb_spec (sonar.Status (sonar.Task info)) sonar.CETaskSuccess)
      as [Hs|Hs].
    + intros [= <- <-]. exists [], info, fired. now repeat split.
    + destruct (String.eqb (sonar.Status (sonar.Task info)) sonar.CETaskCanceled
                || String.eqb (sonar.Status (sonar.Task info)) sonar.CETaskFailed)
        eqn:Hend.
      * now intros [= <- <-].
      * intros H. specialize (IH H). destruct err as [e|]; [exact IH|].
        destruct IH as (pre & info' & post & -> & Hpre & Hst & Han).
        exists (sonar.Tick (sonar.Fetched_task info) :: pre), info', post.
        repeat split; auto. constructor; [|exact Hpre].
        cbn [sonar.terminal]. apply String.eqb_neq in Hs.
        rewrite Hs. cbn [orb]. exact Hend.
  - now intros [= <- <-].
Qed.

(* ===================================================================== *)
(** * More properties: [GetObjectPath] and [Environs] *)
(* ===================================================================== *)

Lemma TrimLeft_slash_head (s : string) :
  String.prefix "/" (strings.TrimLeft s "/") = false.
Proof.
  induction s as [|c s IH]; [reflexivity|].
  cbn [strings.TrimLeft strings.IndexByte].
  destruct (Ascii.eqb_spec c "/"%char) as [->|Hc]; cbn [orb]; [exact IH|].
  cbn [String.prefix]. destruct (ascii_dec "/"%char c); [congruence|reflexivity].
Qed.

(** X14.  The key [GetObjectPath] returns never starts with "/", whatever
    the name and the folder are. *)
Theorem GetObjectPath_no_leading_slash (name subFolder : string) :
  String.prefix "/" (GetObjectPath name subFolder) = false.
Proof.
  unfold GetObjectPath.
  destruct (negb (String.eqb subFolder "")); apply TrimLeft_slash_head.
Qed.

(** ** Counting a byte *)

Lemma Split_length (s : string) (c : ascii) :
  List.length (strings.Split s c) = S (strings.Count s c).
Proof.
  induction s as [|d s IH]; [reflexivity|]. cbn [strings.Split strings.Count].
  destruct (Ascii.eqb d c); cbn [List.length]; [now rewrite IH|].
  destruct (strings.Split s c); cbn [List.length] in *; lia.
Qed.

Lemma Count_append (a b : string) (c : ascii) :
  strings.Count (a ++ b) c = strings.Count a c + strings.Count b c.
Proof. induction a as [|d a IH]; cbn; [reflexivity|]. rewrite IH. lia. Qed.

Lemma Count_absent (s : string) (c : ascii) :
  strings.IndexByte s c = false -> strings.Count s c = 0.
Proof.
  induction s as [|d s IH]; [reflexivity|]. cbn [strings.IndexByte strings.Count].
  intros H. apply orb_false_elim in H as [Hd Hs].
  rewrite Ascii.eqb_sym in Hd. now rewrite Hd, (IH Hs).
Qed.

Lemma Count_slices (s : string) (n : nat) (c : ascii) :
  strings.Count (strings.slice_to s n) c + strings.Count (strings.slice_from s n) c =
  strings.Count s c.
Proof.
  revert s; induction n as [|n IH]; intros [|d s]; try reflexivity.
  cbn [strings.slice_to strings.slice_from strings.Count]. rewrite <- (IH s). lia.
Qed.

(** The scan of [Replace] keeps the number of occurrences of a byte that
    neither the pattern nor its replacement holds. *)
Lemma replace_scan_Count (old new : string) (c : ascii) :
  old <> EmptyString ->
  strings.IndexByte old c = false -> strings.IndexByte new c = false ->
  forall s b skip,
    strings.Count (strings.slice_to s skip) c = 0 ->
    strings.Count (strings.replace_scan old new b skip s) c =
    strings.Count (strings.slice_from s skip) c.
Proof.
  intros Hne Hold Hnew. induction s as [|d s IH]; intros b skip Hskip.
  { now destruct skip. }
  cbn [strings.replace_scan]. destruct skip as [|k].
  - cbn [strings.slice_from].
    destruct (negb (strings.exhausted b) && String.prefix old (String d s)) eqn:Hm.
    + apply andb_prop in Hm as [_ Hp].
      destruct old as [|x old']; [congruence|].
      cbn [String.prefix] in Hp.
      destruct (ascii_dec x d) as [->|]; [|discriminate].
      destruct (prefix_split old' s Hp) as [r Hr].
      cbn [strings.IndexByte] in Hold. apply orb_false_elim in Hold as [Hd Hold'].
      rewrite Ascii.eqb_sym in Hd.
      cbn [String.length Nat.pred].
      assert (Hk : strings.Count (strings.slice_to s (String.length old')) c = 0).
      { rewrite Hr, slice_to_append. now apply Count_absent. }
      rewrite Count_append, (Count_absent new c Hnew), (IH _ _ Hk).
      cbn [strings.Count]. rewrite Hd.
      rewrite <- (Count_slices s (String.length old') c), Hk. lia.
    + cbn [strings.Count]. rewrite (IH b 0); [now destruct s|now destruct s].
  - cbn [strings.slice_to strings.Count] in Hskip. cbn [strings.slice_from].
    apply IH. lia.
Qed.

Lemma Replace_Count (s old new : string) (c : ascii) :
  old <> EmptyString ->
  strings.IndexByte old c = false -> strings.IndexByte new c = false ->
  strings.Count (strings.Replace s old new (-1)) c = strings.Count s c.
Proof.
  intros Hne Hold Hnew. unfold strings.Replace.
  destruct (String.eqb old new || (-1 =? 0)%Z); [reflexivity|].
  destruct old as [|x old']; [congruence|].
  rewrite (replace_scan_Count (String x old') new c Hne Hold Hnew);
    now destruct s.
Qed.

(** X15.  When the home directory holds no "=", every assignment
    [Environs] returns still splits into exactly two parts on "=": the
    replacement of "$HOME" does not change the shape of the entries that
    were kept. *)
Theorem Environs_keeps_shape (home : string) (l : list string) :
  strings.IndexByte home "="%char = false ->
  Forall (fun val => List.length (strings.Split val "="%char) = 2)
         (Environs home l).
Proof.
  intros Hhome. induction l as [|val l IH]; [constructor|].
  cbn [Environs]. destruct (String.eqb val ""); [exact IH|].
  destruct (Nat.eqb_spec (List.length (strings.Split val "="%char)) 2) as [E|_];
    cbn [negb]; [|exact IH].
  constructor; [|exact IH].
  rewrite Split_length in E |- *.
  rewrite Replace_Count; [exact E|discriminate|reflexivity|exact Hhome].
Qed.

(** X16.  [Environs] normalizes entry by entry: the assignments of two
    lists put one after the other are the assignments of the first
    followed by those of the second, and never more than were given. *)
Theorem Environs_append (home : string) (a b : list string) :
  Environs home (a ++ b) = Environs home a ++ Environs home b /\
  List.length (Environs home a) <= List.length a.
Proof.
  split.
  - induction a as [|val a IH]; [reflexivity|]. cbn [app Environs].
    destruct (String.eqb val ""); [exact IH|].
    destruct (negb _); [exact IH|]. cbn [app]. now rewrite IH.
  - induction a as [|val a IH]; [apply le_n|]. cbn [Environs List.length].
    destruct (String.eqb val ""); [lia|].
    destruct (negb _); cbn [List.length]; lia.
Qed.

(* ===================================================================== *)
(** * The further properties at sample inputs *)
(* ===================================================================== *)

Example TrimSpace_unicode :
  strings.TrimSpace (" a b " ++ strings.bytes [194; 160; 9]) = "a b".
Proof. vm_compute. reflexivity. Qed.

Example TrimSpace_broken_encoding :
  strings.TrimSpace (strings.bytes [226; 128; 131] ++ "x" ++ strings.bytes [133]) =
  ("x" ++ strings.bytes [133])%string.
Proof. vm_compute. reflexivity. Qed.

Example getKeyValue_report :
  sonar.GetSonarCETaskID
    ("projectKey=demo" ++ newline ++ " ceTaskId = AX=1 " ++ newline ++ "ceTaskId=2") =
  "AX=1".
Proof. vm_compute. reflexivity. Qed.

(** X1 at a sample: a key with a space before it. *)
Lemma getKeyValue_improper_key_witness : sonar.getKeyValue " a=1" " a" = "".
Proof.
  apply getKeyValue_improper_key. intros (_ & H & _). vm_compute in H. discriminate.
Defined.

(** X3 at a sample: the second of three lines has the key. *)
Lemma getKeyValue_render_witness :
  sonar.getKeyValue
    (sonar.render [("projectKey", "demo"); ("ceTaskId", "AX1"); ("ceTaskId", "AX2")])
    "ceTaskId" = "AX1".
Proof.
  apply (getKeyValue_render
           [("projectKey", "demo"); ("ceTaskId", "AX1"); ("ceTaskId", "AX2")]
           "ceTaskId").
  repeat constructor; try discriminate; vm_compute; reflexivity.
Defined.

(** X4 at a sample: spaces, a tab and a carriage return around the key
    and the value. *)
Lemma getKeyValue_first_line_witness :
  sonar.getKeyValue
    (" " ++ "sonar.working.directory" ++ " " ++ "=" ++ strings.bytes [9] ++
     "/src/.scannerwork" ++ strings.bytes [13] ++ newline ++ "branch=main")
    "sonar.working.directory" = "/src/.scannerwork".
Proof.
  apply (getKeyValue_first_line " " "sonar.working.directory" " " (strings.bytes [9])
           "/src/.scannerwork" (strings.bytes [13]) "branch=main"
           "sonar.working.directory");
    try (vm_compute; reflexivity);
    repeat split; try discriminate; vm_compute; reflexivity.
Defined.

(** X5 at a sample: two answers that keep the loop waiting, then
    SUCCESS; the timeout that comes after is not seen. *)
Lemma Wait_first_terminal_witness :
  sonar.WaitForCETaskTobeDone
    "AX1"
    [sonar.answer "PENDING" ""; sonar.answer "IN_PROGRESS" "";
     sonar.answer "SUCCESS" "AN7"; sonar.Timeouts] =
  Some ("AN7", None).
Proof.
  pose proof (Wait_first_terminal
                "AX1" [sonar.answer "PENDING" ""; sonar.answer "IN_PROGRESS" ""]
                [sonar.Timeouts] (sonar.answer "SUCCESS" "AN7")) as H.
  destruct H as (_ & H & _).
  - repeat constructor.
  - reflexivity.
  - exact H.
Defined.

(** X6 at a sample. *)
Lemma Wait_returns_witness :
  exists pre info post,
    [sonar.answer "PENDING" ""; sonar.answer "SUCCESS" "AN7"] =
      pre ++ sonar.Tick (sonar.Fetched_task info) :: post /\
    Forall (fun f => sonar.terminal f = false) pre /\
    sonar.Status (sonar.Task info) = sonar.CETaskSuccess /\
    "AN7" = sonar.AnalysisID (sonar.Task info).
Proof.
  exact (Wait_returns "AX1" [sonar.answer "PENDING" ""; sonar.answer "SUCCESS" "AN7"]
                      "AN7" None eq_refl).
Defined.

(** X17 at a sample: the step made from a nil spec. *)
Lemma Run_nil_spec_witness :
  let w := start (nil_step ["LANG=C"] []) in
  sample_Run all_ok w =
    (Panic "invalid memory address or nil pointer dereference", w) /\
  trace (snd (sample_Run all_ok w)) = [].
Proof.
  cbv zeta.
  destruct (Run_nil_spec sample_cache sample_placeholder sample_home sample_tmp
              all_ok (start (nil_step ["LANG=C"] [])) eq_refl) as (H & _).
  split; [exact H|]. unfold sample_Run. rewrite H. reflexivity.
Defined.

(** X7 at a sample: the origin download of the first tool fails. *)
Lemma Run_no_panic_witness :
  let o := failing (fun e => is_S3Download e || is_HttpDownload e) "connection refused" in
  let w := start (step_of [Some tgz_tool; Some go_tool] [] []) in
  fst (sample_Run o w) = Ok tt \/ exists e, fst (sample_Run o w) = Err e.
Proof.
  cbv zeta. apply Run_no_panic; [discriminate|]. repeat constructor; discriminate.
Defined.

(** X9 at a sample: the artifact is in the cache. *)
Lemma cache_hit_skips_origin_witness :
  let w := start (step_of [Some tgz_tool] [] []) in
  filter is_network (events_since w (snd (sample_install (Some 0) all_ok w))) =
  [EvS3NewClient "" "" "" "" false "";
   EvS3Download "" "cache/node-v18.0.0/tool.tgz" "/tmp/tool.tgz"].
Proof.
  cbv zeta.
  assert (Hd : Download tgz_tool <> EmptyString) by discriminate.
  exact (@cache_hit_skips_origin sample_cache sample_placeholder sample_home sample_tmp
           all_ok (start (step_of [Some tgz_tool] [] [])) 0 tgz_tool
           eq_refl Hd eq_refl eq_refl).
Defined.

(** X10 at a sample: no client, and the origin cannot be reached. *)
Lemma no_client_no_backfill_witness :
  let o := failing (fun e => is_S3NewClient e || is_HttpDownload e) "connection refused" in
  let w := start (step_of [Some tgz_tool] [] []) in
  fst (sample_install (Some 0) o w) = Err "connection refused" /\
  nth_error (Installs (pointee (step (snd (sample_install (Some 0) o w))))) 0 =
    Some (Some tgz_tool).
Proof.
  cbv zeta.
  set (o := failing (fun e => is_S3NewClient e || is_HttpDownload e) "connection refused").
  set (w := start (step_of [Some tgz_tool] [] [])).
  assert (Hd : Download tgz_tool <> EmptyString) by discriminate.
  destruct (@no_client_no_backfill sample_cache sample_placeholder sample_home sample_tmp
              o w 0 tgz_tool "connection refused" eq_refl Hd eq_refl)
    as [_ H].
  destruct (H "connection refused" eq_refl) as (H1 & _ & H3).
  split; [exact H1|exact H3].
Defined.

(** X11 at a sample: the temporary directory is full. *)
Lemma script_write_failure_witness :
  let o := failing (fun e => match e with EvWriteFile _ _ _ => true | _ => false end)
                   "no space left on device" in
  let w := start (step_of [Some go_tool] [] []) in
  fst (sample_install (Some 0) o w) =
    Err "write script file error: no space left on device" /\
  cmd_envs (events_since w (snd (sample_install (Some 0) o w))) = [].
Proof.
  cbv zeta.
  set (o := failing (fun e => match e with EvWriteFile _ _ _ => true | _ => false end)
                    "no space left on device").
  set (w := start (step_of [Some go_tool] [] [])).
  destruct (@script_write_failure sample_cache sample_placeholder sample_home sample_tmp
              o w 0 go_tool "no space left on device" eq_refl eq_refl eq_refl)
    as [H1 H2].
  split; [exact H1|]. unfold sample_install. rewrite H2. reflexivity.
Defined.

(** X13 at a sample: two tools that bring their own artifacts. *)
Lemma Run_offline_witness :
  let w := start (step_of [Some go_tool; Some make_tool] [] []) in
  filter is_network (events_since w (snd (sample_Run all_ok w))) = [].
Proof.
  cbv zeta. apply Run_offline.
  intros t [H|[H|[]]]; injection H as <-; reflexivity.
Defined.

(** X15 at a sample. *)
Lemma Environs_keeps_shape_witness :
  Forall (fun val => List.length (strings.Split val "="%char) = 2)
         (Environs "/root" ["PATH=$HOME/bin"; "NODE_ENV"; "=2"]).
Proof. apply Environs_keeps_shape. reflexivity. Defined.
